(** * cloudron-cli: the exec stream multiplexer, the operation pollers and
      the configuration store

    A shallow embedding of [src/app/actions.js] (the functions [demuxStream],
    [exec], [waitForFinishInstallation], [waitForHealthy],
    [waitForBackupCompletion], the uninstall poller) and of [src/config.js],
    followed by the properties the specification states about them.

    Conventions of the embedding:
    - a Node [Buffer] is a [list byte]; numbers read from or written to a
      buffer are in [N];
    - a JavaScript string is a [string] (ASCII characters);
    - an event handler is a function from the handler's captured state and
      the event to the new state and the effects it performs, in order;
    - a JavaScript object used as a dictionary is a [gmap] from property
      names to values. *)

From Stdlib Require Import ZArith NArith List String Ascii Lia DecimalString.
From Stdlib.Strings Require Import Byte.
From Stdlib Require Import DecimalPos DecimalN.
From stdpp Require Import gmap strings.
Import ListNotations.

Set Warnings "-register-all".
Local Open Scope string_scope.
Local Open Scope list_scope.

(* ===================================================================== *)
(** * Part I: definitions                                                 *)
(* ===================================================================== *)

(** ** Buffers *)

Module Buffer.

Definition t := list byte.

(** [buf.readUInt8(offset)]; every read below is within bounds, the default
    stands for the out-of-range case. *)
Definition readUInt8 (b : t) (offset : nat) : N :=
  Byte.to_N (nth offset b x00).

(** [buf.readUInt32BE(offset)]: most significant byte first. *)
Definition readUInt32BE (b : t) (offset : nat) : N :=
  (readUInt8 b offset * 16777216
   + readUInt8 b (offset + 1) * 65536
   + readUInt8 b (offset + 2) * 256
   + readUInt8 b (offset + 3))%N.

Definition byte_of_N (n : N) : byte :=
  match Byte.of_N (n mod 256) with
  | Some b => b
  | None => x00
  end.

(** The four bytes of a 32-bit number, most significant first. *)
Definition be32 (n : N) : t :=
  [ byte_of_N (n / 16777216); byte_of_N (n / 65536);
    byte_of_N (n / 256); byte_of_N n ].

(** [buf = new Buffer(4); buf.writeUInt32BE(value, 0)]: the four bytes
    written; [None] is the exception Node raises for a value that does
    not fit 32 bits. *)
Definition writeUInt32BE (value : N) : option t :=
  if (value <? 4294967296)%N then Some (be32 value) else None.

End Buffer.

(** ** JavaScript strings, [util.format] and the [colors] styles *)

Module JS.

Definition LF : string := String "010"%char "".
Definition ESC : string := String "027"%char "".

(** The [colors] package: ['text'.red] and the like wrap the text in the
    ANSI codes of the style. *)
Definition style (on off : string) (s : string) : string :=
  ESC +:+ "[" +:+ on +:+ "m" +:+ s +:+ ESC +:+ "[" +:+ off +:+ "m".

Definition red := style "31" "39".
Definition cyan := style "36" "39".
Definition bold := style "1" "22".

(** [String(n)] for a non-negative integer. *)
Definition of_N (n : N) : string := NilZero.string_of_uint (N.to_uint n).

(** [String(v)] for a value that is a string or [null]. *)
Definition of_nullable (v : option string) : string :=
  match v with
  | Some s => s
  | None => "null"
  end.

(** [s.split(c)] for a one-character separator. *)
Fixpoint split (sep : ascii) (s : string) : list string :=
  match s with
  | EmptyString => [""]
  | String c rest =>
      if Ascii.eqb c sep then "" :: split sep rest
      else match split sep rest with
           | part :: parts => String c part :: parts
           | [] => [String c ""]
           end
  end.

(** White space as [trim] sees it among ASCII characters: tab, line feed,
    vertical tab, form feed, carriage return and space. *)
Definition is_space (c : ascii) : bool :=
  let n := nat_of_ascii c in
  ((9 <=? n)%nat && (n <=? 13)%nat) || (n =? 32)%nat.

Fixpoint trim_left (s : string) : string :=
  match s with
  | EmptyString => ""
  | String c rest => if is_space c then trim_left rest else s
  end.

Fixpoint trim_right (s : string) : string :=
  match s with
  | EmptyString => ""
  | String c rest =>
      match trim_right rest with
      | EmptyString => if is_space c then "" else String c ""
      | kept => String c kept
      end
  end.

(** [s.trim()]. *)
Definition trim (s : string) : string := trim_right (trim_left s).

(** [s.indexOf(sub) !== -1]. *)
Fixpoint includes (sub s : string) : bool :=
  String.prefix sub s
  || match s with
     | EmptyString => false
     | String _ rest => includes sub rest
     end.

(** A string is truthy when it is not empty; [null] is falsy. *)
Definition truthy (v : option string) : bool :=
  match v with
  | Some (String _ _) => true
  | _ => false
  end.

(** [a === b] for values that are strings or [null]. *)
Definition strict_eq (a b : option string) : bool :=
  match a, b with
  | Some x, Some y => String.eqb x y
  | None, None => true
  | _, _ => false
  end.

(** The placeholders of [util.format] that take an argument. *)
Definition is_placeholder (c : ascii) : bool :=
  Ascii.eqb c "s" || Ascii.eqb c "d" || Ascii.eqb c "j".

(** [util.format(f, args...)], first pass: each [%s], [%d], [%j] takes the
    next argument while there is one, [%%] is a percent sign; returns the
    text and the arguments left over. Arguments are given as the text
    they print as. *)
Fixpoint format_scan (f : string) (args : list string) : string * list string :=
  match f with
  | EmptyString => ("", args)
  | String c rest =>
      match rest with
      | String d rest' =>
          if Ascii.eqb c "%" && Ascii.eqb d "%" then
            let (out, left) := format_scan rest' args in (String "%" out, left)
          else if Ascii.eqb c "%" && is_placeholder d then
            match args with
            | a :: args' =>
                let (out, left) := format_scan rest' args' in (a +:+ out, left)
            | [] =>
                let (out, left) := format_scan rest' [] in
                (String c (String d out), left)
            end
          else
            let (out, left) := format_scan rest args in (String c out, left)
      | EmptyString => (String c "", args)
      end
  end.

(** Second pass: the arguments left over follow, each after a space. *)
Definition format (f : string) (args : list string) : string :=
  let (out, left) := format_scan f args in
  out +:+ String.concat "" (map (fun a => " " +:+ a) left).

(** [c] is one of the characters of [s]. *)
Fixpoint has_char (c : ascii) (s : string) : bool :=
  match s with
  | EmptyString => false
  | String d rest => Ascii.eqb d c || has_char c rest
  end.

(** The last character of [s]. *)
Fixpoint last_char (s : string) : option ascii :=
  match s with
  | EmptyString => None
  | String c EmptyString => Some c
  | String _ rest => last_char rest
  end.

(** [sub] occurs in [s]. *)
Definition occurs_in (sub s : string) : Prop :=
  exists before after, s = before +:+ sub +:+ after.

End JS.

(** ** The inbound demultiplexer: [demuxStream] *)

Module Demux.

(** [stream.read(n)] of a Node [Readable] (the socket) whose internal
    buffer holds [buf] and that has not ended, as Node documents it: [null]
    when fewer than [n] bytes are buffered, and otherwise the first [n]
    bytes, which leave the buffer; [read(0)] consumes nothing and always
    returns [null]. *)
Definition read (n : N) (buf : Buffer.t) : option (Buffer.t * Buffer.t) :=
  if (n =? 0)%N then None
  else if (n <=? N.of_nat (length buf))%N
       then Some (firstn (N.to_nat n) buf, skipn (N.to_nat n) buf)
       else None.

(** The calls [stdout.write(payload)] and [stderr.write(payload)]. *)
Inductive write :=
| Stdout (payload : Buffer.t)
| Stderr (payload : Buffer.t).

(** What [demuxStream] holds between two events: the closure variable
    [header], the bytes buffered inside [stream], and the writes made so
    far, oldest first. *)
Record state := mkState {
  header : option Buffer.t;
  buffered : Buffer.t;
  written : list write
}.

Definition init : state :=
  {| header := None; buffered := []; written := [] |}.

(** The [while (header !== null)] loop, entered with a non-null header.
    Every completed round takes at least one payload byte out of the
    buffer, so [S (length buf)] rounds are enough; [fuel] counts them. *)
Fixpoint loop (fuel : nat) (hd : Buffer.t) (buf : Buffer.t)
         (out : list write) : state :=
  match fuel with
  | O => {| header := Some hd; buffered := buf; written := out |}
  | S fuel' =>
      let type := Buffer.readUInt8 hd 0 in
      match read (Buffer.readUInt32BE hd 4) buf with
      | None => {| header := Some hd; buffered := buf; written := out |}
      | Some (payload, buf') =>
          let out' :=
            out ++ [if (type =? 2)%N then Stderr payload else Stdout payload] in
          match read 8 buf' with
          | None => {| header := None; buffered := buf'; written := out' |}
          | Some (hd', buf'') => loop fuel' hd' buf'' out'
          end
      end
  end.

(** The ['readable'] listener: [header = header || stream.read(8)], then
    the loop. *)
Definition on_readable (st : state) : state :=
  match header st with
  | Some hd => loop (S (length (buffered st))) hd (buffered st) (written st)
  | None =>
      match read 8 (buffered st) with
      | None => st
      | Some (hd, buf') => loop (S (length buf')) hd buf' (written st)
      end
  end.

(** A chunk arrives from the socket: it joins the stream's buffer and the
    listener runs. *)
Definition push (st : state) (chunk : Buffer.t) : state :=
  on_readable {| header := header st;
                 buffered := buffered st ++ chunk;
                 written := written st |}.

Definition feed (chunks : list Buffer.t) (st : state) : state :=
  fold_left push chunks st.

(** [demuxStream(stream, stdout, stderr)] on a stream that delivers
    [chunks], one after the other: the state after the last of them. *)
Definition demuxStream (chunks : list Buffer.t) : state := feed chunks init.

(** The bytes that reached the local stdout, and the local stderr. *)
Definition stdout_bytes (out : list write) : Buffer.t :=
  concat (map (fun w => match w with Stdout p => p | Stderr _ => [] end) out).

Definition stderr_bytes (out : list write) : Buffer.t :=
  concat (map (fun w => match w with Stderr p => p | Stdout _ => [] end) out).

(** A frame as the server sends it: the type byte, the three bytes the
    client skips, and the payload. *)
Record frame := mkFrame {
  ftype : byte;
  reserved : byte * byte * byte;
  payload : Buffer.t
}.

Definition frame_header (f : frame) : Buffer.t :=
  let '(r1, r2, r3) := reserved f in
  [ftype f; r1; r2; r3] ++ Buffer.be32 (N.of_nat (length (payload f))).

Definition encode (f : frame) : Buffer.t := frame_header f ++ payload f.

Definition encode_all (fs : list frame) : Buffer.t :=
  concat (map encode fs).

(** The declared length fits the 32-bit field. *)
Definition fits (f : frame) : Prop :=
  (N.of_nat (length (payload f)) < 4294967296)%N.

(** Where the payload of a frame belongs. *)
Definition route (f : frame) : write :=
  if (Byte.to_N (ftype f) =? 2)%N then Stderr (payload f)
  else Stdout (payload f).

(** A frame the decoder passes on: a payload of at least one byte whose
    length fits the header. *)
Definition carries_data (f : frame) : Prop := payload f <> [] /\ fits f.

(** The frames that come before the first frame with an empty payload. *)
Fixpoint before_zero_length (fs : list frame) : list frame :=
  match fs with
  | [] => []
  | f :: fs' =>
      match payload f with
      | [] => []
      | _ :: _ => f :: before_zero_length fs'
      end
  end.

Definition to_stderr (f : frame) : bool := (Byte.to_N (ftype f) =? 2)%N.

End Demux.

(** ** Effects and replies *)

Module IO.

(** What a callback or [exit] is handed: a string, a number, or an
    [Error] object with its message. *)
Inductive value :=
| Str (s : string)
| Num (n : N)
| Error (message : string).

(** The query of the exec request. *)
Record exec_query := mkQuery {
  rows : option N;
  columns : option N;
  access_token : string;
  cmd : list string;
  tty : bool
}.

(** Modelled from the spec: [helper.exit] (src/helper.js is not among the
    sources) reports its arguments as one message and ends the process, so
    nothing of the program runs after an [Exit].

    The type lists what the program does to the outside, in the order it
    does it. *)
Inductive effect :=
| HttpGet (path : string)
| ExecRequest (hostname path : string) (query : exec_query)
| StdoutWrite (s : string)
| ConsoleLog (s : string)
| ConsoleError (s : string)
| SetTimeout (ms : N)
| Exit (args : list value).

Record response (B : Type) := mkResponse {
  statusCode : N;
  text : string;
  body : B
}.
Arguments mkResponse {B} _ _ _.
Arguments statusCode {B} _.
Arguments text {B} _.
Arguments body {B} _.

(** Modelled from the spec: [helper.superagentEnd] (src/helper.js is not
    among the sources) performs the request its first argument builds and
    hands the pair [(error, result)] to its second. [NoResponse] is the case
    [error && !error.response]; in every other case [result] is the
    response. *)
Inductive reply (B : Type) :=
| NoResponse (message : string)
| Responded (res : response B).
Arguments NoResponse {B} _.
Arguments Responded {B} _.

(** The application resource, as far as the client looks at it. *)
Record app := mkApp {
  id : string;
  installationState : string;
  installationProgress : option string;
  health : option string
}.

(** [body.backup] of the progress resource. *)
Record backup_progress := mkBackup {
  percent : Z;
  message : option string
}.

Definition print (v : value) : string :=
  match v with
  | Str s => s
  | Num n => JS.of_N n
  | Error m => m
  end.

(** Modelled from the spec: the message [helper.exit] reports for its
    arguments, put together as [util.format] does. *)
Definition exit_message (args : list value) : string :=
  match args with
  | [] => ""
  | f :: rest => JS.format (print f) (map print rest)
  end.

Definition is_request (e : effect) : bool :=
  match e with
  | HttpGet _ | ExecRequest _ _ _ => true
  | _ => false
  end.

Definition is_exec_request (e : effect) : bool :=
  match e with
  | ExecRequest _ _ _ => true
  | _ => false
  end.

End IO.

(** ** The exec transport: [exec] *)

Module Exec.
Import IO.

Definition gray := JS.style "90" "39".

Definition NO_APP_FOUND_ERROR_STRING : string :=
  (JS.LF +:+ "Cannot find a matching app." +:+ JS.LF)
  +:+ gray ("Apps installed from the store are not picked automatically."
            +:+ JS.LF).

(** [showDeveloperModeNotice]; [apiEndpoint] is [config.apiEndpoint()]. *)
Definition showDeveloperModeNotice (apiEndpoint : string) : list effect :=
  [ConsoleError
     (JS.format (JS.red "CLI mode is disabled. Enable it at %s.")
                ["https://" +:+ apiEndpoint +:+ "/#/settings"])].

(** What [getApp] finds around it. *)
Record environment := mkEnv {
  token : string;                     (* config.token() *)
  apiEndpoint : string;               (* config.apiEndpoint() *)
  manifestFilePath : option string;   (* helper.locateManifest() *)
  manifest_id : option string;        (* the id read from that file, if it parses *)
  manifest_error : string;            (* safe.error, when it does not *)
  app_reply : reply app;              (* the answer to GET /api/v1/apps/<appId> *)
  selected : option app               (* the app selectAvailableApp settles on *)
}.

Inductive lookup :=
| Found (error : option value) (a : option app)   (* callback(error, app) *)
| Ended.                                          (* exit(...) inside getApp *)

(** [getApp(appId, callback)]: the requests it makes, its exits, and how
    it ends. [selectAvailableApp] is kept to its request and its result: it
    lists the apps with one GET and settles on one of them, or on none; what
    it prints and asks while the user chooses among several apps is not in
    this trace. *)
Definition getApp (appId : option string) (env : environment)
  : list effect * lookup :=
  match appId with
  | Some (String _ _ as appId) =>
      match app_reply env with
      | NoResponse e =>
          ([HttpGet ("/api/v1/apps/" +:+ appId)], Found (Some (Error e)) None)
      | Responded res =>
          if (statusCode res =? 503)%N then
            ([HttpGet ("/api/v1/apps/" +:+ appId);
              Exit [Str "The Cloudron is currently updating, please retry in a bit."]],
             Ended)
          else if (statusCode res =? 404)%N then
            ([HttpGet ("/api/v1/apps/" +:+ appId)],
             Found (Some (Str (JS.format "App %s not found." [JS.bold appId])))
                   None)
          else if negb (statusCode res =? 200)%N then
            ([HttpGet ("/api/v1/apps/" +:+ appId)],
             Found (Some (Str (JS.format (JS.red "Failed to get app.")
                                 [JS.of_N (statusCode res); text res]))) None)
          else
            ([HttpGet ("/api/v1/apps/" +:+ appId)], Found None (Some (body res)))
      end
  | _ =>
      match manifestFilePath env with
      | None => ([], Found (Some (Str "No CloudronManifest.json found")) None)
      | Some file =>
          match manifest_id env with
          | None =>
              ([Exit [Str "Unable to read manifest."; Str file;
                      Error (manifest_error env)]], Ended)
          | Some _ => ([HttpGet "/api/v1/apps"], Found None (selected env))
          end
      end
  end.

(** [exec(cmd, options)] up to the point where the request is made or the
    process ends. [app] is [options.app], [tty] is [!!options.tty],
    [stdin_isTTY] is [stdin.isTTY]; [stdout_rows] and [stdout_columns]
    are [stdout.rows] and [stdout.columns]. *)
Definition exec (cmd : list string) (app : option string) (tty : bool)
    (stdin_isTTY : bool) (stdout_rows stdout_columns : option N)
    (env : environment) : list effect :=
  let (requests, found) := getApp app env in
  requests ++
  match found with
  | Ended => []
  | Found (Some error) _ => [Exit [error]]
  | Found None None => [Exit [Str NO_APP_FOUND_ERROR_STRING]]
  | Found None (Some a) =>
      let (cmd, tty) :=
        match cmd with
        | [] => (["/bin/bash"], true)
        | _ :: _ => (cmd, tty)
        end in
      if tty && negb stdin_isTTY then [Exit [Str "stdin is not tty"]]
      else [ExecRequest (apiEndpoint env)
                        ("/api/v1/apps/" +:+ id a +:+ "/exec")
                        {| rows := stdout_rows; columns := stdout_columns;
                           access_token := token env; cmd := cmd;
                           tty := tty |}]
  end.

(** The response handler of the request: the server answered instead of
    switching protocols. *)
Definition handler {B} (apiEndpoint : string) (res : response B)
  : list effect :=
  if (statusCode res =? 412)%N then
    showDeveloperModeNotice apiEndpoint ++ [Exit []]
  else if (statusCode res =? 403)%N then
    [Exit [Str (JS.red "Only admins can use this feature.")]]
  else
    [Exit [Str "Could not upgrade connection to tcp. http status:";
           Num (statusCode res)]].

(** What the client does to the socket. *)
Inductive socket_op :=
| SocketWrite (b : Buffer.t)
| SocketEnd.

(** The events of the local stdin in non-TTY mode. *)
Inductive stdin_event :=
| Data (d : Buffer.t)
| End_.

(** The ['data'] and ['end'] listeners of stdin; [None] when
    [writeUInt32BE] throws. *)
Definition on_stdin (e : stdin_event) : option (list socket_op) :=
  match e with
  | Data d =>
      match Buffer.writeUInt32BE (N.of_nat (length d)) with
      | Some buf => Some [SocketWrite buf; SocketWrite d]
      | None => None
      end
  | End_ =>
      match Buffer.writeUInt32BE 0 with
      | Some buf => Some [SocketWrite buf]
      | None => None
      end
  end.

(** The socket operations of a sequence of stdin events; an exception ends
    the run. *)
Fixpoint on_stdin_all (events : list stdin_event) : option (list socket_op) :=
  match events with
  | [] => Some []
  | e :: rest =>
      match on_stdin e with
      | None => None
      | Some ops =>
          match on_stdin_all rest with
          | None => None
          | Some more => Some (ops ++ more)
          end
      end
  end.

(** A chunk as it is to travel: the 4-byte length, then the bytes, in two
    writes. *)
Definition outbound_frame (d : Buffer.t) : list socket_op :=
  [SocketWrite (Buffer.be32 (N.of_nat (length d))); SocketWrite d].

Definition is_write (op : socket_op) : bool :=
  match op with
  | SocketWrite _ => true
  | SocketEnd => false
  end.

End Exec.

(** ** The operation pollers *)

Module Poller.
Import IO.

Definition app_path (appId : string) : string := "/api/v1/apps/" +:+ appId.
Definition progress_path : string := "/api/v1/cloudron/progress".

(** How one run of a [checkStatus] callback ends. *)
Inductive next :=
| Stop (error : option value)          (* return callback(error) *)
| Ends                                 (* exit(...) *)
| Health                               (* return waitForHealthy(appId, callback) *)
| Again (currentProgress : option string).  (* setTimeout(checkStatus, 1000) *)

(** How a poller stands once the replies at hand are used up. *)
Inductive outcome :=
| Finished (error : option value)      (* the callback was called *)
| Terminated                           (* the process was ended by exit *)
| Polling.                             (* a request is out, no answer yet *)

Definition failed_to_get_app {B} (res : response B) : value :=
  Error (JS.format (JS.red "Failed to get app.")
                   [JS.of_N (statusCode res); text res]).

(** *** [waitForHealthy] *)

Definition healthy_check (r : reply app) : list effect * next :=
  match r with
  | NoResponse e => ([], Stop (Some (Error e)))
  | Responded res =>
      if negb (statusCode res =? 200)%N then
        ([], Stop (Some (failed_to_get_app res)))
      else if JS.strict_eq (health (body res)) (Some "healthy") then
        ([], Stop None)
      else ([StdoutWrite "."; SetTimeout 1000], Again None)
  end.

(** [checkStatus] of [waitForHealthy], run against the successive answers
    of the server. *)
Fixpoint healthy_checkStatus (appId : string) (replies : list (reply app))
  : list effect * outcome :=
  match replies with
  | [] => ([HttpGet (app_path appId)], Polling)
  | r :: rest =>
      let (out, nxt) := healthy_check r in
      match nxt with
      | Again _ =>
          let (more, o) := healthy_checkStatus appId rest in
          (HttpGet (app_path appId) :: out ++ more, o)
      | Stop e => (HttpGet (app_path appId) :: out, Finished e)
      | _ => (HttpGet (app_path appId) :: out, Terminated)
      end
  end.

Definition health_banner : effect :=
  StdoutWrite (JS.LF +:+ " => " +:+ JS.cyan "Wait for health check").

Definition waitForHealthy (appId : string) (replies : list (reply app))
  : list effect * outcome :=
  let (more, o) := healthy_checkStatus appId replies in
  (health_banner :: SetTimeout 1000 :: more, o).

(** *** [waitForFinishInstallation] *)

(** [installProgressLabel] for a progress string. *)
Definition installProgressLabel (installationProgress : string) : string :=
  let tmp := JS.split "," installationProgress in
  if (length tmp =? 2)%nat then nth 1 tmp "" else nth 0 tmp "".

(** The part of [checkStatus] that tracks the progress and shows dots. *)
Definition show_progress (currentProgress installationProgress : option string)
  : list effect :=
  if JS.strict_eq currentProgress installationProgress then
    if JS.truthy currentProgress
       && negb (JS.includes "Creating image" (JS.of_nullable currentProgress))
    then [StdoutWrite "."] else []
  else
    match installationProgress with
    | Some p =>
        [StdoutWrite (JS.LF +:+ " => "
                      +:+ JS.cyan (JS.trim (installProgressLabel p)) +:+ " ")]
    | None =>
        [StdoutWrite (JS.LF +:+ " => "
                      +:+ JS.cyan "Waiting to start installation ")]
    end.

Definition install_check (waitForHealthcheck : bool)
    (currentProgress : option string) (r : reply app) : list effect * next :=
  match r with
  | NoResponse e => ([], Stop (Some (Error e)))
  | Responded res =>
      if negb (statusCode res =? 200)%N then
        ([], Stop (Some (failed_to_get_app res)))
      else if String.eqb (installationState (body res)) "installed" then
        if waitForHealthcheck then ([], Health) else ([], Stop None)
      else if String.eqb (installationState (body res)) "error" then
        ([], Stop (Some (Error (JS.of_nullable
                                  (installationProgress (body res))))))
      else
        (show_progress currentProgress (installationProgress (body res))
           ++ [SetTimeout 1000],
         Again (installationProgress (body res)))
  end.

Fixpoint install_checkStatus (appId : string) (waitForHealthcheck : bool)
    (currentProgress : option string) (replies : list (reply app))
  : list effect * outcome :=
  match replies with
  | [] => ([HttpGet (app_path appId)], Polling)
  | r :: rest =>
      let (out, nxt) := install_check waitForHealthcheck currentProgress r in
      match nxt with
      | Again currentProgress' =>
          let (more, o) :=
            install_checkStatus appId waitForHealthcheck currentProgress' rest in
          (HttpGet (app_path appId) :: out ++ more, o)
      | Health =>
          let (more, o) := waitForHealthy appId rest in
          (HttpGet (app_path appId) :: out ++ more, o)
      | Stop e => (HttpGet (app_path appId) :: out, Finished e)
      | Ends => (HttpGet (app_path appId) :: out, Terminated)
      end
  end.

(** [currentProgress] starts as the empty string and the first check is
    made at once. *)
Definition waitForFinishInstallation (appId : string)
    (waitForHealthcheck : bool) (replies : list (reply app))
  : list effect * outcome :=
  install_checkStatus appId waitForHealthcheck (Some "") replies.

(** *** [waitForBackupCompletion] *)

Definition backup_check (r : reply backup_progress) : list effect * next :=
  match r with
  | NoResponse e => ([], Stop (Some (Error e)))
  | Responded res =>
      if negb (statusCode res =? 200)%N then
        ([], Stop (Some (Error
           (JS.format (JS.red "Failed to get backup progress.")
                      [JS.of_N (statusCode res); text res]))))
      else if (100 <=? percent (body res))%Z then
        if JS.truthy (message (body res)) then
          ([], Stop (Some (Error ("Backup failed: "
                                  +:+ JS.of_nullable (message (body res))))))
        else ([], Stop None)
      else ([StdoutWrite "."; SetTimeout 1000], Again None)
  end.

Fixpoint backup_checkStatus (replies : list (reply backup_progress))
  : list effect * outcome :=
  match replies with
  | [] => ([HttpGet progress_path], Polling)
  | r :: rest =>
      let (out, nxt) := backup_check r in
      match nxt with
      | Again _ =>
          let (more, o) := backup_checkStatus rest in
          (HttpGet progress_path :: out ++ more, o)
      | Stop e => (HttpGet progress_path :: out, Finished e)
      | _ => (HttpGet progress_path :: out, Terminated)
      end
  end.

Definition waitForBackupCompletion (replies : list (reply backup_progress))
  : list effect * outcome :=
  let (more, o) := backup_checkStatus replies in
  (StdoutWrite "Waiting for box backup to finish..." :: more, o).

(** *** The poller of [uninstall]: [waitForFinish] *)

Definition uninstall_check (appId : string) (r : reply app)
  : list effect * next :=
  match r with
  | NoResponse e => ([Exit [Error e]], Ends)
  | Responded res =>
      if (statusCode res =? 404)%N then
        ([ConsoleLog (JS.format (JS.LF +:+ JS.LF
                                 +:+ "App %s successfully uninstalled.")
                                [JS.bold appId]);
          Exit []], Ends)
      else ([StdoutWrite "."; SetTimeout 1000], Again None)
  end.

Fixpoint waitForFinish (appId : string) (replies : list (reply app))
  : list effect * outcome :=
  match replies with
  | [] => ([HttpGet (app_path appId)], Polling)
  | r :: rest =>
      let (out, nxt) := uninstall_check appId r in
      match nxt with
      | Again _ =>
          let (more, o) := waitForFinish appId rest in
          (HttpGet (app_path appId) :: out ++ more, o)
      | Stop e => (HttpGet (app_path appId) :: out, Finished e)
      | _ => (HttpGet (app_path appId) :: out, Terminated)
      end
  end.

(** *** Kinds of answers *)

Definition ok {B} (r : reply B) : bool :=
  match r with
  | Responded res => (statusCode res =? 200)%N
  | NoResponse _ => false
  end.

Definition has_state (state : string) (r : reply app) : bool :=
  match r with
  | Responded res => String.eqb (installationState (body res)) state
  | NoResponse _ => false
  end.

(** Status 200 with the installation finished. *)
Definition installed (r : reply app) : bool :=
  ok r && has_state "installed" r.

(** Status 200 with the installation neither finished nor failed. *)
Definition in_progress (r : reply app) : bool :=
  ok r && negb (has_state "installed" r) && negb (has_state "error" r).

Definition reports_healthy (r : reply app) : bool :=
  match r with
  | Responded res => JS.strict_eq (health (body res)) (Some "healthy")
  | NoResponse _ => false
  end.

(** Status 200 with [health] equal to ['healthy'], and with any other
    [health]. *)
Definition healthy (r : reply app) : bool := ok r && reports_healthy r.
Definition unhealthy (r : reply app) : bool :=
  ok r && negb (reports_healthy r).

(** One round of the health wait that has to be repeated: the request, the
    dot, the timer. *)
Definition health_round (appId : string) : list effect :=
  [HttpGet (app_path appId); StdoutWrite "."; SetTimeout 1000].

End Poller.

(** ** The configuration store: [config.js] *)

Module Config.

(** The values a configuration holds. *)
Inductive value :=
| Undefined
| Null
| Bool (b : bool)
| Number (z : Z)
| Text (s : string)
| Object (props : gmap string value).

(** The names a plain object such as [gConfig] inherits from
    [Object.prototype]. JavaScript's [in] operator and property reads see
    them as they see the object's own properties. *)
Definition Object_prototype : list string :=
  ["constructor"; "toString"; "toLocaleString"; "valueOf"; "hasOwnProperty";
   "isPrototypeOf"; "propertyIsEnumerable"; "__proto__";
   "__defineGetter__"; "__defineSetter__";
   "__lookupGetter__"; "__lookupSetter__"].

Definition inherited (key : string) : bool :=
  existsb (String.eqb key) Object_prototype.

(** A flat property name: not empty, and without the characters that make
    a key a path into nested objects. *)
Definition flat (key : string) : bool :=
  negb (String.eqb key "")
  && forallb (fun c => negb (Ascii.eqb c "." || Ascii.eqb c "["))
             (list_ascii_of_string key).

(** A key of the flat namespace that names nothing inherited. *)
Definition ordinary (key : string) : bool := flat key && negb (inherited key).

(** Modelled from the spec: [safe.set], [safe.query] and [safe.unset] come
    from the [safetydance] package, which is not among the sources. The
    specification describes the store as get/set/unset/has over a flat key
    namespace, so they are taken as the write, the read and the removal of
    the property of [o] that [key] names; reading a property that is not
    there gives [undefined]. This is a model for [ordinary] keys only: what
    the package does with a key that is a path, and what a read gives for a
    name inherited from [Object.prototype], is outside it, and the laws of
    the store are stated for [ordinary] keys. *)
Definition safe_set (o : gmap string value) (key : string) (v : value)
  : gmap string value := <[key := v]> o.

(** Modelled from the spec: [safe.query(o, key)], the read. *)
Definition safe_query (o : gmap string value) (key : string) : value :=
  match o !! key with
  | Some v => v
  | None => Undefined
  end.

(** Modelled from the spec: [safe.unset(o, key)], the removal. *)
Definition safe_unset (o : gmap string value) (key : string)
  : gmap string value := delete key o.

(** The store: the object [gConfig], and what [save()] last wrote to
    [CONFIG_FILE_PATH]. *)
Record store := mkStore {
  gConfig : gmap string value;
  file : gmap string value
}.

Definition save (g : gmap string value) : store :=
  {| gConfig := g; file := g |}.

(** The first argument of [set] is a key, or an object whose properties
    are copied into [gConfig] ([_.extend]). *)
Inductive key_or_object :=
| Key (key : string)
| Props (props : gmap string value).

Definition set (key : key_or_object) (v : value) (st : store) : store :=
  match key with
  | Props props => save (props ∪ gConfig st)
  | Key key => save (safe_set (gConfig st) key v)
  end.

Definition get (key : string) (st : store) : value :=
  safe_query (gConfig st) key.

(** [unset(key, ...)]: every argument in turn. *)
Definition unset (keys : list string) (st : store) : store :=
  save (fold_left safe_unset keys (gConfig st)).

(** [has(key, ...)]: every argument is [in gConfig], that is, an own
    property of [gConfig] or a name it inherits. *)
Definition has (keys : list string) (st : store) : bool :=
  forallb (fun key =>
             bool_decide (is_Some (gConfig st !! key)) || inherited key) keys.

End Config.

(** ** What the demultiplexer holds and has written *)

Module Decoder.

Definition payload_of (w : Demux.write) : Buffer.t :=
  match w with
  | Demux.Stdout p => p
  | Demux.Stderr p => p
  end.

(** The decoder can do nothing more with what it holds: without a header
    it has fewer than the 8 bytes of one; with a header, the header
    declares no payload or more payload than is buffered. *)
Definition settled (st : Demux.state) : Prop :=
  match Demux.header st with
  | None => length (Demux.buffered st) < 8
  | Some hd =>
      length hd = 8
      /\ (Buffer.readUInt32BE hd 4 = 0%N
          \/ (N.of_nat (length (Demux.buffered st)) < Buffer.readUInt32BE hd 4)%N)
  end.

(** The bytes of the stream a state accounts for: eight of a header and the
    payload for each write, the header it holds, and what is buffered. *)
Definition sum_written (out : list Demux.write) : nat :=
  list_sum (map (fun w => 8 + length (payload_of w)) out).

Definition accounted (st : Demux.state) : nat :=
  sum_written (Demux.written st)
  + match Demux.header st with
    | Some hd => length hd
    | None => 0
    end
  + length (Demux.buffered st).

(** [part] is the beginning of [whole], and not all of it. *)
Definition cut_short (part whole : Buffer.t) : Prop :=
  exists missing, missing <> [] /\ whole = part ++ missing.

(** [stream.read(n)] once the stream has ended, as Node documents it: when
    fewer than [n] bytes are buffered, all that is left is returned, and
    [null] only when nothing is left; [read(0)] is [null] as before. *)
Definition read_ended (n : N) (buf : Buffer.t) : option (Buffer.t * Buffer.t) :=
  if (n =? 0)%N then None
  else match buf with
       | [] => None
       | _ :: _ => Some (firstn (N.to_nat n) buf, skipn (N.to_nat n) buf)
       end.

(** How the listener leaves the decoder when it runs for the last time:
    in a state, or by an exception after the writes it has made. *)
Inductive ending :=
| Ended (st : Demux.state)
| Threw (out : list Demux.write).

(** The loop of the listener on the ended stream. A header may now have
    fewer than 8 bytes, and then [header.readUInt32BE(4)] throws a
    [RangeError]. *)
Fixpoint loop_ended (fuel : nat) (hd : Buffer.t) (buf : Buffer.t)
         (out : list Demux.write) : ending :=
  match fuel with
  | O => Ended {| Demux.header := Some hd; Demux.buffered := buf;
                  Demux.written := out |}
  | S fuel' =>
      let type := Buffer.readUInt8 hd 0 in
      if (length hd <? 8)%nat then Threw out
      else
        match read_ended (Buffer.readUInt32BE hd 4) buf with
        | None => Ended {| Demux.header := Some hd; Demux.buffered := buf;
                           Demux.written := out |}
        | Some (payload, buf') =>
            let out' :=
              out ++ [if (type =? 2)%N then Demux.Stderr payload
                      else Demux.Stdout payload] in
            match read_ended 8 buf' with
            | None => Ended {| Demux.header := None; Demux.buffered := buf';
                               Demux.written := out' |}
            | Some (hd', buf'') => loop_ended fuel' hd' buf'' out'
            end
        end
  end.

(** The ['readable'] event Node emits when the end of the stream is
    reached: the listener of [demuxStream] runs once more, on what is left
    in the buffer. *)
Definition on_end (st : Demux.state) : ending :=
  match Demux.header st with
  | Some hd =>
      loop_ended (S (length (Demux.buffered st))) hd (Demux.buffered st)
                 (Demux.written st)
  | None =>
      match read_ended 8 (Demux.buffered st) with
      | None => Ended st
      | Some (hd, buf') => loop_ended (S (length buf')) hd buf' (Demux.written st)
      end
  end.

(** [demuxStream] on a stream that delivers [chunks] and then ends. *)
Definition at_end (chunks : list Buffer.t) : ending :=
  on_end (Demux.demuxStream chunks).

End Decoder.

(** ** The bytes the client puts on the socket *)

Module Wire.

Definition bytes_of (op : Exec.socket_op) : Buffer.t :=
  match op with
  | Exec.SocketWrite b => b
  | Exec.SocketEnd => []
  end.

(** All the bytes written, in order. *)
Definition sent (ops : list Exec.socket_op) : Buffer.t :=
  concat (map bytes_of ops).

End Wire.

(** ** Kinds of effects *)

Module Trace.

Definition is_get (e : IO.effect) : bool :=
  match e with
  | IO.HttpGet _ => true
  | _ => false
  end.

End Trace.

(** ** What happens at the terminal and on the network *)

Module Terminal.

Inductive event :=
| Did (e : IO.effect)
| Question (query : string)               (* readlineSync.question(query, {}) *)
| Secret (query : string)                 (* ... with noEchoBack *)
| HttpPost (path : string) (data : list (string * string)).

Definition is_question (e : event) : bool :=
  match e with
  | Question _ | Secret _ => true
  | _ => false
  end.

Definition is_post (e : event) : bool :=
  match e with
  | HttpPost _ _ => true
  | _ => false
  end.

(** The number of POST requests made. *)
Definition posts (evs : list event) : nat := length (List.filter is_post evs).

End Terminal.

(** ** Choosing among the installed apps: [selectAvailableApp] *)

Module Select.
Import IO Terminal.

(** The value of a decimal digit. *)
Definition digit (c : ascii) : option N :=
  let n := nat_of_ascii c in
  if (48 <=? n)%nat && (n <=? 57)%nat then Some (N.of_nat (n - 48)) else None.

(** The number written by the digits [s] begins with, after [acc]. *)
Fixpoint digits (s : string) (acc : N) : N :=
  match s with
  | EmptyString => acc
  | String c rest =>
      match digit c with
      | Some d => digits rest (acc * 10 + d)
      | None => acc
      end
  end.

(** The number [s] begins with; [None] when it begins with no digit. *)
Definition leading_number (s : string) : option N :=
  match s with
  | EmptyString => None
  | String c _ =>
      match digit c with
      | Some _ => Some (digits s 0)
      | None => None
      end
  end.

(** [parseInt(s, 10)]: white space is skipped, a sign is taken, then the
    longest run of digits is read; [None] is [NaN]. *)
Definition parseInt (s : string) : option Z :=
  match JS.trim_left s with
  | String "-" rest => option_map (fun n => (- Z.of_N n)%Z) (leading_number rest)
  | String "+" rest => option_map Z.of_N (leading_number rest)
  | s' => option_map Z.of_N (leading_number s')
  end.

(** An entry of the list of apps, as far as it is looked at. *)
Record listed := mkListed {
  app : IO.app;
  appStoreId : option string;
  manifest_id : string;
  location : string
}.

Inductive result :=
| Callback (error : option value) (a : option listed)
| Asking.                          (* a question is out, no answer yet *)

(** [!app.appStoreId && app.manifest.id === appId]. *)
Definition available (appId : string) (a : listed) : bool :=
  negb (JS.truthy (appStoreId a)) && String.eqb (manifest_id a) appId.

(** [isNaN(index) || index < 0 || index > availableApps.length-1]. *)
Definition invalid (count : nat) (answer : string) : bool :=
  match parseInt answer with
  | None => true
  | Some index => (index <? 0)%Z || (Z.of_nat count - 1 <? index)%Z
  end.

Definition prompt (count : nat) : string :=
  "Choose app [0-" +:+ JS.of_N (N.of_nat (count - 1)) +:+ "]: ".

(** The [while (true)] loop, against the answers the user gives. *)
Fixpoint choose (availableApps : list listed) (answers : list string)
  : list event * result :=
  match answers with
  | [] => ([Question (prompt (length availableApps))], Asking)
  | answer :: rest =>
      if invalid (length availableApps) answer then
        let (more, r) := choose availableApps rest in
        (Question (prompt (length availableApps))
           :: Did (ConsoleLog (JS.red "Invalid selection")) :: more, r)
      else
        ([Question (prompt (length availableApps))],
         Callback None
           (match parseInt answer with
            | Some index => nth_error availableApps (Z.to_nat index)
            | None => None
            end))
  end.

(** The lines of the listing: ['[%s]\t%s'] with the index and the
    location. *)
Fixpoint listing (index : N) (apps : list listed) : list event :=
  match apps with
  | [] => []
  | a :: rest =>
      Did (ConsoleLog (JS.format ("[%s]" +:+ String "009"%char "%s")
                                 [JS.of_N index; location a]))
        :: listing (index + 1) rest
  end.

Definition selectAvailableApp (appId : string) (r : reply (list listed))
    (answers : list string) : list event * result :=
  match r with
  | NoResponse e => ([Did (HttpGet "/api/v1/apps")], Callback (Some (Error e)) None)
  | Responded res =>
      if negb (statusCode res =? 200)%N then
        ([Did (HttpGet "/api/v1/apps")],
         Callback (Some (Str (JS.format (JS.red "Failed to list apps. %s - %s")
                                [JS.of_N (statusCode res); text res]))) None)
      else
        let availableApps := List.filter (available appId) (body res) in
        match availableApps with
        | [] => ([Did (HttpGet "/api/v1/apps")],
                 Callback (Some (Error "No apps installed.")) None)
        | [a] => ([Did (HttpGet "/api/v1/apps")], Callback None (Some a))
        | _ =>
            let (more, result) := choose availableApps answers in
            (Did (HttpGet "/api/v1/apps")
               :: Did (ConsoleLog "")
               :: Did (ConsoleLog (JS.format "Available apps of type %s:" [appId]))
               :: listing 0 availableApps ++ more,
             result)
        end
  end.

End Select.

(** ** Finding the endpoint of a Cloudron: [detectCloudronApiEndpoint],
       [open], [installFromStore] *)

Module Endpoint.
Import IO.

(** [s.slice(n)]. *)
Fixpoint slice_from (n : nat) (s : string) : string :=
  match n, s with
  | O, _ => s
  | S n', String _ rest => slice_from n' rest
  | S _, EmptyString => ""
  end.

(** [if (s.indexOf(p) === 0) s = s.slice(p.length)]. *)
Definition strip (p s : string) : string :=
  if String.prefix p s then slice_from (String.length p) s else s.

(** [if (s.indexOf(c) !== -1) s = s.slice(0, s.indexOf(c))] for a
    character [c]. *)
Fixpoint before (c : ascii) (s : string) : string :=
  match s with
  | EmptyString => ""
  | String d rest => if Ascii.eqb d c then "" else String d (before c rest)
  end.

(** The first four statements of [detectCloudronApiEndpoint]: the name of
    the Cloudron in what the user typed. *)
Definition cloudron_name (cloudron : string) : string :=
  before "/" (strip "my." (strip "my-" (strip "https://" cloudron))).

(** The answer to a status request: none, or a status code together with
    [body.version]. *)
Inductive probe :=
| Unreachable
| Status (statusCode : N) (version : option string).

(** [!error && result.statusCode === 200 && result.body.version]; superagent
    sets [error] when there is no response or the status is an error
    status, so not for 200. *)
Definition found (p : probe) : bool :=
  match p with
  | Status code version => (code =? 200)%N && JS.truthy version
  | Unreachable => false
  end.

Record detected := mkDetected {
  cloudron : string;
  apiEndpoint : string
}.

Definition status_url (host : string) : string :=
  "https://" +:+ host +:+ "/api/v1/cloudron/status".

(** [detectCloudronApiEndpoint(cloudron, callback)]: [dash] and [dot] are
    the answers of the two hosts; the result is what the callback gets,
    [inl] for the error. *)
Definition detectCloudronApiEndpoint (cloudron : string) (dash dot : probe)
  : list effect * (string + detected) :=
  let cloudron := cloudron_name cloudron in
  if found dash then
    ([HttpGet (status_url ("my-" +:+ cloudron))],
     inr {| cloudron := cloudron; apiEndpoint := "my-" +:+ cloudron |})
  else if found dot then
    ([HttpGet (status_url ("my-" +:+ cloudron));
      HttpGet (status_url ("my." +:+ cloudron))],
     inr {| cloudron := cloudron; apiEndpoint := "my." +:+ cloudron |})
  else
    ([HttpGet (status_url ("my-" +:+ cloudron));
      HttpGet (status_url ("my." +:+ cloudron))],
     inl "Cloudron not found").

(** The domain [open] opens for an app at [location]; [cloudron] and
    [apiEndpoint] are [config.cloudron()] and [config.apiEndpoint()]. *)
Definition domain (location cloudron apiEndpoint : string) : string :=
  if String.eqb location "" then cloudron
  else location
       +:+ (if String.prefix "my-" apiEndpoint then "-" else ".")
       +:+ cloudron.

(** The url [installFromStore] asks the store for; [appStoreOrigin] is
    [config.appStoreOrigin()]. [parts[1]] is falsy when it is missing or
    empty. *)
Definition store_url (appStoreOrigin appstoreId : string) : string :=
  let parts := JS.split "@" appstoreId in
  appStoreOrigin +:+ "/api/v1/apps/" +:+ nth 0 parts ""
  +:+ (if JS.truthy (nth_error parts 1)
       then "/versions/" +:+ nth 1 parts "" else "").

End Endpoint.

(** ** The configuration when the program starts *)

Module Settings.
Import Config.

(** Whether a value counts as true in a condition. *)
Definition truthy (v : value) : bool :=
  match v with
  | Undefined | Null => false
  | Bool b => b
  | Number z => negb (z =? 0)%Z
  | Text s => negb (String.eqb s "")
  | Object _ => true
  end.

(** [c.appStoreOrigin]: the property, [undefined] when there is none. *)
Definition appStoreOrigin_of (c : gmap string value) : value :=
  match c !! "appStoreOrigin" with
  | Some v => v
  | None => Undefined
  end.

(** The initial value of [gConfig]. [parsed] is the object read from the
    configuration file, [None] when the file is missing or does not parse
    ([safe.JSON.parse(...) || {}]); [APPSTORE_ORIGIN] is the environment
    variable. *)
Definition load (parsed : option (gmap string value))
    (APPSTORE_ORIGIN : option string) : gmap string value :=
  let c := match parsed with Some c => c | None => ∅ end in
  if JS.truthy APPSTORE_ORIGIN then
    <["appStoreOrigin" := Text (JS.of_nullable APPSTORE_ORIGIN)]> c
  else if negb (truthy (appStoreOrigin_of c)) then
    <["appStoreOrigin" := Text "https://api.cloudron.io"]> c
  else c.

(** The store as the program finds it: loading writes nothing. *)
Definition start (parsed : option (gmap string value))
    (APPSTORE_ORIGIN : option string) : store :=
  {| gConfig := load parsed APPSTORE_ORIGIN;
     file := match parsed with Some c => c | None => ∅ end |}.

(** [config.appStoreOrigin()]. *)
Definition appStoreOrigin (st : store) : value := get "appStoreOrigin" st.

(** [clear()]: the file is removed, [gConfig] is not touched. A file that
    is not there is read as [{}] when the program starts. *)
Definition clear (st : store) : store :=
  {| gConfig := gConfig st; file := empty |}.



End Settings.

(** ** Logging in: [authenticate] and [login] *)

Module Login.
Import IO Terminal.

Inductive outcome :=
| Done          (* logged in *)
| Exited        (* exit(...) *)
| Threw         (* a TypeError *)
| Waiting       (* the request is out, no answer yet *)
| Asking.       (* a question is out, no answer yet *)

Record options := mkOptions {
  username : option string;
  password : option string
}.

(** A value as it appears when it is joined to a string. *)
Definition to_string (v : Config.value) : string :=
  match v with
  | Config.Undefined => "undefined"
  | Config.Null => "null"
  | Config.Bool true => "true"
  | Config.Bool false => "false"
  | Config.Number z =>
      if (z <? 0)%Z then "-" +:+ JS.of_N (Z.abs_N z) else JS.of_N (Z.abs_N z)
  | Config.Text s => s
  | Config.Object _ => "[object Object]"
  end.

(** ['Enter credentials for ' + config.cloudron().bold + ':']: [.bold] is
    there for strings only; on [undefined] and [null] the access throws. *)
Definition greeting (cloudron : Config.value) : option string :=
  match cloudron with
  | Config.Text s => Some ("Enter credentials for " +:+ JS.bold s +:+ ":")
  | Config.Undefined | Config.Null => None
  | _ => Some "Enter credentials for undefined:"
  end.

(** [given || readlineSync.question(...)]: the value, the question if one
    was put, and the answers left; [None] when the answer is still out. *)
Definition ask (given : option string) (q : event) (answers : list string)
  : option (string * list event * list string) :=
  if JS.truthy given then Some (JS.of_nullable given, [], answers)
  else match answers with
       | a :: rest => Some (a, [q], rest)
       | [] => None
       end.

Definition green := JS.style "32" "39".

(** [authenticate(options, callback)] against the successive answers of the
    server to the login request and the answers typed by the user; the
    store is threaded through. *)
Fixpoint authenticate (opts : options) (replies : list (reply Config.value))
    (answers : list string) (st : Config.store)
  : list event * Config.store * outcome :=
  match greeting (Config.get "cloudron" st) with
  | None => ([Did (ConsoleLog "")], st, Threw)
  | Some line =>
      let intro := [Did (ConsoleLog ""); Did (ConsoleLog line)] in
      match ask (username opts) (Question "Username: ") answers with
      | None => (intro ++ [Question "Username: "], st, Asking)
      | Some (user, q1, answers1) =>
          match ask (password opts) (Secret "Password: ") answers1 with
          | None => (intro ++ q1 ++ [Secret "Password: "], st, Asking)
          | Some (pass, q2, answers2) =>
              let st1 := Config.unset ["token"] st in
              let sent :=
                intro ++ q1 ++ q2
                ++ [HttpPost "/api/v1/developer/login"
                             [("username", user); ("password", pass)]] in
              match replies with
              | [] => (sent, st1, Waiting)
              | NoResponse e :: _ =>
                  (sent ++ [Did (Exit [Error e])], st1, Exited)
              | Responded res :: rest =>
                  if (statusCode res =? 412)%N then
                    let '(more, st2, o) :=
                      authenticate (mkOptions None None) rest answers2 st1 in
                    (sent
                     ++ map Did (Exec.showDeveloperModeNotice
                                   (to_string (Config.get "apiEndpoint" st1)))
                     ++ more, st2, o)
                  else if negb (statusCode res =? 200)%N then
                    let '(more, st2, o) :=
                      authenticate (mkOptions None None) rest answers2 st1 in
                    (sent ++ [Did (ConsoleLog (JS.red "Login failed."))] ++ more,
                     st2, o)
                  else
                    (sent ++ [Did (ConsoleLog (green "Login successful."))],
                     Config.set (Config.Key "token") (body res) st1, Done)
              end
          end
      end
  end.

(** [login(cloudron, options)] for a given host name: the endpoint is
    detected and stored, then [authenticate] runs. *)
Definition login (cloudron : string) (dash dot : Endpoint.probe)
    (opts : options) (replies : list (reply Config.value))
    (answers : list string) (st : Config.store)
  : list event * Config.store * outcome :=
  match Endpoint.detectCloudronApiEndpoint cloudron dash dot with
  | (requests, inl error) =>
      (map Did requests ++ [Did (Exit [Str error])], st, Exited)
  | (requests, inr found) =>
      let st1 := Config.set (Config.Key "cloudron")
                            (Config.Text (Endpoint.cloudron found)) st in
      let st2 := Config.set (Config.Key "apiEndpoint")
                            (Config.Text (Endpoint.apiEndpoint found)) st1 in
      let '(more, st3, o) := authenticate opts replies answers st2 in
      (map Did requests ++ more, st3, o)
  end.

(** The server turned the login down: it answered, and not with 200. *)
Definition refused (r : reply Config.value) : bool :=
  match r with
  | Responded res => negb (statusCode res =? 200)%N
  | NoResponse _ => false
  end.

End Login.

(** ** Stopping, starting and restarting an app: [stopApp], [startApp],
    [restart] *)

Module Restart.
Import IO Terminal.

(** The application resource as the pollers of this section read it: the
    fields of [IO.app], and [runState]. *)
Record resource := mkResource {
  fields : app;
  runState : option string
}.

(** How a step of the sequence ends: its callback is called (with [null],
    the only value these functions pass), the process is ended by [exit],
    or a request is out with no answer yet. [Reached] carries the answers
    the server has still to give. *)
Inductive stage :=
| Reached (rest : list (reply resource))
| Ended
| Waiting.

Definition post_path (appId verb : string) : string :=
  "/api/v1/apps/" +:+ appId +:+ "/" +:+ verb.

(** [waitForFinish(appId)] of [stopApp] and [startApp], which differ in the
    run state they wait for, run against the successive answers of the
    server. *)
Fixpoint waitForFinish (appId target : string) (polls : list (reply resource))
  : list event * stage :=
  match polls with
  | [] => ([Did (HttpGet (Poller.app_path appId))], Waiting)
  | NoResponse e :: _ =>
      ([Did (HttpGet (Poller.app_path appId)); Did (Exit [Error e])], Ended)
  | Responded res :: rest =>
      if JS.strict_eq (runState (body res)) (Some target) then
        ([Did (HttpGet (Poller.app_path appId))], Reached rest)
      else
        let (more, s) := waitForFinish appId target rest in
        (Did (HttpGet (Poller.app_path appId))
           :: Did (StdoutWrite ".") :: Did (SetTimeout 1000) :: more, s)
  end.

(** The common shape of [stopApp(app, callback)] and
    [startApp(app, callback)]: the POST with the body [{}], the check of
    its answer, the banner, and the wait. *)
Definition change_runState (verb failure banner target : string)
    (a : app) (answer : reply unit) (polls : list (reply resource))
  : list event * stage :=
  match answer with
  | NoResponse e =>
      ([HttpPost (post_path (id a) verb) []; Did (Exit [Error e])], Ended)
  | Responded res =>
      if negb (statusCode res =? 202)%N then
        ([HttpPost (post_path (id a) verb) [];
          Did (Exit [Str (JS.format (JS.red failure)
                            [JS.of_N (statusCode res); text res])])], Ended)
      else
        let (more, s) := waitForFinish (id a) target polls in
        (HttpPost (post_path (id a) verb) []
           :: Did (StdoutWrite (JS.LF +:+ " => " +:+ JS.cyan banner))
           :: more, s)
  end.

Definition stopApp : app -> reply unit -> list (reply resource)
    -> list event * stage :=
  change_runState "stop" "Failed to stop app."
                  "Waiting for app to be stopped " "stopped".

Definition startApp : app -> reply unit -> list (reply resource)
    -> list event * stage :=
  change_runState "start" "Failed to start app."
                  "Waiting for app to be started " "running".

(** What [waitForHealthy] reads of an answer. *)
Definition health_view (r : reply resource) : reply app :=
  match r with
  | NoResponse e => NoResponse e
  | Responded res =>
      Responded (mkResponse (statusCode res) (text res) (fields (body res)))
  end.

(** [error.message]; a string or a number has no such property, and
    [undefined] is printed as such. *)
Definition message_of (error : value) : string :=
  match error with
  | Error m => m
  | _ => "undefined"
  end.

(** The callback [restart] hands to [waitForHealthy]. *)
Definition restarted (o : Poller.outcome) : list event :=
  match o with
  | Poller.Finished (Some error) =>
      [Did (Exit [Str (JS.red (JS.LF +:+ JS.LF +:+ "App restart error: %s"));
                  Str (message_of error)])]
  | Poller.Finished None =>
      [Did (ConsoleLog (Login.green (JS.LF +:+ JS.LF +:+ "App restarted")));
       Did (Exit [])]
  | _ => []
  end.

(** The callback [restart] hands to [getApp], for the app found:
    [stopApp], then [startApp], then [waitForHealthy], each in the callback
    of the one before. [stop] and [start] are the answers to the two POST
    requests, [polls] the successive answers to
    GET /api/v1/apps/<app.id>. *)
Definition restart_app (a : app) (stop start : reply unit)
    (polls : list (reply resource)) : list event :=
  let (stopping, s1) := stopApp a stop polls in
  stopping ++
  match s1 with
  | Reached rest1 =>
      let (starting, s2) := startApp a start rest1 in
      starting ++
      match s2 with
      | Reached rest2 =>
          let (checking, o) :=
            Poller.waitForHealthy (id a) (map health_view rest2) in
          map Did checking ++ restarted o
      | _ => []
      end
  | _ => []
  end.

(** [restart(options)]; [appId] is [options.app]. *)
Definition restart (appId : option string) (env : Exec.environment)
    (stop start : reply unit) (polls : list (reply resource)) : list event :=
  let (requests, found) := Exec.getApp appId env in
  map Did requests ++
  match found with
  | Exec.Ended => []
  | Exec.Found (Some error) _ => [Did (Exit [error])]
  | Exec.Found None None => [Did (Exit [Str Exec.NO_APP_FOUND_ERROR_STRING])]
  | Exec.Found None (Some a) => restart_app a stop start polls
  end.

(** The answers that keep [waitForFinish] polling. *)
Definition keeps_waiting (target : string) (r : reply resource) : bool :=
  match r with
  | NoResponse _ => false
  | Responded res => negb (JS.strict_eq (runState (body res)) (Some target))
  end.

Definition in_state (target : string) (r : reply resource) : bool :=
  match r with
  | NoResponse _ => false
  | Responded res => JS.strict_eq (runState (body res)) (Some target)
  end.

Definition accepted (r : reply unit) : bool :=
  match r with
  | NoResponse _ => false
  | Responded res => (statusCode res =? 202)%N
  end.

(** One round of [waitForFinish] that did not see the state waited for. *)
Definition round (appId : string) : list event :=
  [Did (HttpGet (Poller.app_path appId)); Did (StdoutWrite ".");
   Did (SetTimeout 1000)].

Definition stop_banner : event :=
  Did (StdoutWrite (JS.LF +:+ " => " +:+ JS.cyan "Waiting for app to be stopped ")).

Definition start_banner : event :=
  Did (StdoutWrite (JS.LF +:+ " => " +:+ JS.cyan "Waiting for app to be started ")).

Definition success : event :=
  Did (ConsoleLog (Login.green (JS.LF +:+ JS.LF +:+ "App restarted"))).

End Restart.

(** ** Asking for the port bindings: [queryPortBindings] *)

Module Ports.
Import IO Terminal.

(** An entry of [manifest.tcpPorts]: its key and what the client reads of
    its value. Port numbers are natural numbers. *)
Record tcpPort := mkPort {
  env : string;
  description : string;
  defaultValue : option N
}.

(** What a key of the result is bound to: a number, or the empty string. *)
Inductive binding :=
| Number (z : Z)
| Empty.

(** [(app && app.portBindings && app.portBindings[env])
      ? app.portBindings[env] : (manifest.tcpPorts[env].defaultValue || '')];
    [bindings] is [app.portBindings] when [app] has it, [None] is the empty
    string. The number 0 is not truthy. *)
Definition defaultPort (bindings : option (gmap string N)) (p : tcpPort)
  : option N :=
  let of_manifest :=
    match defaultValue p with
    | Some n => if (n =? 0)%N then None else Some n
    | None => None
    end in
  match bindings with
  | Some b =>
      match b !! env p with
      | Some n => if (n =? 0)%N then of_manifest else Some n
      | None => of_manifest
      end
  | None => of_manifest
  end.

Definition show (d : option N) : string :=
  match d with
  | Some n => JS.of_N n
  | None => ""
  end.

Definition bound (d : option N) : binding :=
  match d with
  | Some n => Number (Z.of_N n)
  | None => Empty
  end.

Definition quote : string := String "034"%char "".

Definition query (p : tcpPort) (d : option N) : string :=
  description p +:+ " (default " +:+ env p +:+ "=" +:+ show d
    +:+ ". " +:+ quote +:+ "x" +:+ quote +:+ " to disable): ".

(** The [for ... in] loop; [ports] lists the entries of [manifest.tcpPorts]
    in the order the loop meets them, [portBindings] is the object it
    fills. The result is [None] while a question waits for its answer. *)
Fixpoint bind_ports (bindings : option (gmap string N)) (ports : list tcpPort)
    (answers : list string) (portBindings : gmap string binding)
  : list event * option (gmap string binding) :=
  match ports with
  | [] => ([], Some portBindings)
  | p :: more =>
      let d := defaultPort bindings p in
      match answers with
      | [] => ([Question (query p d)], None)
      | port :: rest =>
          if String.eqb port "" then
            let (evs, r) :=
              bind_ports bindings more rest (<[env p := bound d]> portBindings) in
            (Question (query p d) :: evs, r)
          else
            match Select.parseInt port with
            | None =>
                let (evs, r) := bind_ports bindings more rest portBindings in
                (Question (query p d)
                   :: Did (ConsoleLog (Exec.gray ("Cleared " +:+ env p)))
                   :: evs, r)
            | Some n =>
                let (evs, r) :=
                  bind_ports bindings more rest
                             (<[env p := Number n]> portBindings) in
                (Question (query p d) :: evs, r)
            end
      end
  end.

(** [queryPortBindings(app, manifest)]; [tcpPorts] is [manifest.tcpPorts],
    with [{}] in its place when the manifest has none. *)
Definition queryPortBindings (bindings : option (gmap string N))
    (tcpPorts : option (list tcpPort)) (answers : list string)
  : list event * option (gmap string binding) :=
  bind_ports bindings (match tcpPorts with Some ports => ports | None => [] end)
             answers empty.

(** The number of questions put. *)
Definition questions (evs : list event) : nat :=
  length (List.filter is_question evs).

End Ports.


(* ===================================================================== *)
(** * Part II: properties                                                 *)
(* ===================================================================== *)

(** ** Facts about [stream.read] and the demultiplexer loop *)

Section DemuxFacts.
Import Demux.

Lemma read_Some n buf p b' :
  read n buf = Some (p, b') ->
  (0 < n)%N /\ N.to_nat n <= length buf
  /\ p = firstn (N.to_nat n) buf /\ b' = skipn (N.to_nat n) buf.
Proof.
  unfold read. destruct (N.eqb_spec n 0) as [|Hn]; [discriminate|].
  destruct (N.leb_spec n (N.of_nat (length buf))); [|discriminate].
  intros [= <- <-]. repeat split; lia.
Qed.

Lemma read_exact n p rest :
  (0 < n)%N -> N.to_nat n = length p -> read n (p ++ rest) = Some (p, rest).
Proof.
  intros Hn Hlen. unfold read.
  destruct (N.eqb_spec n 0) as [|_]; [lia|].
  destruct (N.leb_spec n (N.of_nat (length (p ++ rest)))) as [_|Hgt].
  - rewrite Hlen, take_app_length, drop_app_length. reflexivity.
  - rewrite length_app in Hgt. lia.
Qed.

Lemma read_app n buf c p b' :
  read n buf = Some (p, b') -> read n (buf ++ c) = Some (p, b' ++ c).
Proof.
  intros H. destruct (read_Some _ _ _ _ H) as (Hn & Hle & -> & ->).
  rewrite <- (take_drop (N.to_nat n) buf) at 1. rewrite <- app_assoc.
  apply read_exact; [assumption|]. rewrite length_take. lia.
Qed.

Lemma read_shrinks n buf p b' :
  read n buf = Some (p, b') -> length b' < length buf.
Proof.
  intros H. destruct (read_Some _ _ _ _ H) as (Hn & Hle & -> & ->).
  rewrite length_drop. lia.
Qed.

(** Fuel beyond the buffer length is never used. *)
Lemma loop_fuel f1 : forall f2 hd buf out,
  length buf < f1 -> length buf < f2 ->
  loop f1 hd buf out = loop f2 hd buf out.
Proof.
  induction f1 as [|f1 IH]; intros f2 hd buf out H1 H2; [lia|].
  destruct f2 as [|f2]; [lia|]. simpl.
  destruct (read (Buffer.readUInt32BE hd 4) buf) as [[p b']|] eqn:E1;
    [|reflexivity].
  destruct (read 8 b') as [[hd' b'']|] eqn:E2; [|reflexivity].
  apply read_shrinks in E1. apply read_shrinks in E2.
  apply IH; lia.
Qed.

(** Scanning for the next header, as the loop does after a payload, is what
    the listener does on a state without header. *)
Lemma rescan f buf out :
  length buf <= f ->
  match read 8 buf with
  | None => {| header := None; buffered := buf; written := out |}
  | Some (hd, b') => loop f hd b' out
  end = on_readable {| header := None; buffered := buf; written := out |}.
Proof.
  intros Hf. unfold on_readable. cbn [header buffered written].
  destruct (read 8 buf) as [[hd b']|] eqn:E; [|reflexivity].
  apply read_shrinks in E. apply loop_fuel; lia.
Qed.

(** Bytes that arrive later are handled as if they had been there from
    the start. *)
Lemma loop_app f : forall hd buf out c,
  length buf < f ->
  loop (S (length (buf ++ c))) hd (buf ++ c) out = push (loop f hd buf out) c.
Proof.
  induction f as [|f IH]; intros hd buf out c Hf; [lia|].
  cbn [loop].
  destruct (read (Buffer.readUInt32BE hd 4) buf) as [[p b']|] eqn:E1.
  - rewrite (read_app _ _ c _ _ E1).
    pose proof (read_shrinks _ _ _ _ E1) as Hs1.
    destruct (read 8 b') as [[hd' b'']|] eqn:E2.
    + rewrite (read_app _ _ c _ _ E2).
      pose proof (read_shrinks _ _ _ _ E2) as Hs2.
      rewrite <- IH by lia. apply loop_fuel; rewrite !length_app in *; lia.
    + unfold push. cbn [header buffered written].
      rewrite <- rescan with (f := length (buf ++ c)).
      * reflexivity.
      * rewrite !length_app. lia.
  - reflexivity.
Qed.

Lemma push_push st c1 c2 : push (push st c1) c2 = push st (c1 ++ c2).
Proof.
  destruct st as [[hd|] b out]; unfold push at 2 3; unfold on_readable;
    cbn [header buffered written].
  - rewrite <- loop_app by lia. rewrite app_assoc. reflexivity.
  - rewrite app_assoc.
    destruct (read 8 (b ++ c1)) as [[hd b']|] eqn:E.
    + rewrite (read_app _ _ c2 _ _ E). rewrite <- loop_app by lia. reflexivity.
    + reflexivity.
Qed.

Lemma feed_push chunks : forall st c,
  feed chunks (push st c) = push st (c ++ concat chunks).
Proof.
  induction chunks as [|d ds IH]; intros st c; simpl.
  - rewrite app_nil_r. reflexivity.
  - rewrite push_push. rewrite IH. rewrite app_assoc. reflexivity.
Qed.

Lemma push_init_nil : push init [] = init.
Proof. reflexivity. Qed.

(** The state after any sequence of chunks depends on their
    concatenation only. *)
Lemma feed_concat chunks : feed chunks init = push init (concat chunks).
Proof.
  rewrite <- push_init_nil at 1. rewrite feed_push. reflexivity.
Qed.

End DemuxFacts.

(** ** Headers and the big-endian length field *)

Section FrameFacts.
Import Demux.

Lemma to_N_byte_of_N n : Byte.to_N (Buffer.byte_of_N n) = (n mod 256)%N.
Proof.
  unfold Buffer.byte_of_N.
  destruct (Byte.of_N (n mod 256)) as [b|] eqn:E.
  - apply Byte.to_of_N in E. exact E.
  - apply Byte.of_N_None_iff in E.
    pose proof (N.mod_upper_bound n 256). lia.
Qed.

Lemma be32_value n :
  (n < 4294967296)%N ->
  ((n / 16777216) mod 256 * 16777216 + (n / 65536) mod 256 * 65536
   + (n / 256) mod 256 * 256 + n mod 256 = n)%N.
Proof.
  intros Hn.
  assert (H1 : (n / 65536 = n / 256 / 256)%N)
    by (rewrite N.Div0.div_div; reflexivity).
  assert (H2 : (n / 16777216 = n / 256 / 256 / 256)%N)
    by (rewrite !N.Div0.div_div; reflexivity).
  rewrite H1, H2. clear H1 H2.
  pose proof (N.div_mod n 256). pose proof (N.mod_upper_bound n 256).
  pose proof (N.div_mod (n / 256) 256).
  pose proof (N.mod_upper_bound (n / 256) 256).
  pose proof (N.div_mod (n / 256 / 256) 256).
  pose proof (N.mod_upper_bound (n / 256 / 256) 256).
  assert ((n / 256 / 256 / 256) mod 256 = n / 256 / 256 / 256)%N as ->.
  { apply N.mod_small. apply N.Div0.div_lt_upper_bound.
    apply N.Div0.div_lt_upper_bound. apply N.Div0.div_lt_upper_bound. lia. }
  lia.
Qed.

Lemma readUInt32BE_be32 pre n :
  (n < 4294967296)%N ->
  Buffer.readUInt32BE (pre ++ Buffer.be32 n) (length pre) = n.
Proof.
  intros Hn. unfold Buffer.readUInt32BE, Buffer.readUInt8, Buffer.be32.
  rewrite !app_nth2 by lia.
  replace (length pre - length pre) with 0 by lia.
  replace (length pre + 1 - length pre) with 1 by lia.
  replace (length pre + 2 - length pre) with 2 by lia.
  replace (length pre + 3 - length pre) with 3 by lia.
  cbn [nth]. rewrite !to_N_byte_of_N. apply be32_value, Hn.
Qed.

Lemma frame_header_length f : length (frame_header f) = 8.
Proof. unfold frame_header. destruct (reserved f) as [[r1 r2] r3]. reflexivity. Qed.

Lemma frame_header_type f :
  Buffer.readUInt8 (frame_header f) 0 = Byte.to_N (ftype f).
Proof. unfold frame_header. destruct (reserved f) as [[r1 r2] r3]. reflexivity. Qed.

Lemma frame_header_declares f :
  fits f ->
  Buffer.readUInt32BE (frame_header f) 4 = N.of_nat (length (payload f)).
Proof.
  intros Hf. unfold frame_header. destruct (reserved f) as [[r1 r2] r3].
  apply (readUInt32BE_be32 [ftype f; r1; r2; r3]), Hf.
Qed.

(** Frames that carry data are written out one by one; the decoder then
    looks for a header in what follows. *)
Lemma route_frames fs : forall out rest,
  Forall carries_data fs ->
  on_readable {| header := None; buffered := encode_all fs ++ rest;
                 written := out |}
  = on_readable {| header := None; buffered := rest;
                   written := out ++ map route fs |}.
Proof.
  induction fs as [|f fs IH]; intros out rest Hall.
  - simpl. rewrite app_nil_r. reflexivity.
  - inversion Hall as [|? ? [Hne Hfit] Hrest]; subst.
    unfold encode_all. cbn [map concat]. fold (encode_all fs).
    unfold encode at 1. rewrite <- !app_assoc.
    unfold on_readable at 1. cbn [header buffered written].
    rewrite read_exact by (rewrite ?frame_header_length; reflexivity || lia).
    cbn [loop].
    rewrite frame_header_declares by assumption.
    rewrite read_exact.
    + rewrite frame_header_type. fold (route f).
      rewrite rescan by (rewrite !length_app; lia).
      rewrite IH by assumption.
      rewrite <- app_assoc. reflexivity.
    + destruct (payload f); [congruence|simpl; lia].
    + lia.
Qed.

(** A header that declares no payload parks the decoder: [read(0)] yields
    [null] on this and on every later event. *)
Lemma zero_header_parks hd rest out :
  length hd = 8 -> Buffer.readUInt32BE hd 4 = 0%N ->
  on_readable {| header := None; buffered := hd ++ rest; written := out |}
  = {| header := Some hd; buffered := rest; written := out |}.
Proof.
  intros Hl Hz. unfold on_readable. cbn [header buffered written].
  rewrite read_exact by (rewrite ?Hl; reflexivity || lia).
  cbn [loop]. rewrite Hz. reflexivity.
Qed.

End FrameFacts.

(** ** The demultiplexer on a stream of frames *)

Section DemuxOnFrames.
Import Demux.

Lemma written_on_frames fs : forall out,
  Forall fits fs ->
  written (on_readable {| header := None; buffered := encode_all fs;
                          written := out |})
  = out ++ map route (before_zero_length fs).
Proof.
  induction fs as [|f fs IH]; intros out Hall.
  - simpl. rewrite app_nil_r. reflexivity.
  - inversion Hall as [|? ? Hfit Hrest]; subst.
    cbn [before_zero_length].
    destruct (payload f) as [|b p] eqn:Ep.
    + unfold encode_all. cbn [map concat]. unfold encode. rewrite Ep.
      rewrite app_nil_r.
      rewrite zero_header_parks.
      * simpl. rewrite app_nil_r. reflexivity.
      * apply frame_header_length.
      * rewrite frame_header_declares by assumption. rewrite Ep. reflexivity.
    + replace (encode_all (f :: fs)) with (encode_all [f] ++ encode_all fs)
        by (unfold encode_all; cbn [map concat]; rewrite app_nil_r;
            reflexivity).
      rewrite route_frames.
      * rewrite IH by assumption. simpl. rewrite <- app_assoc. reflexivity.
      * constructor; [|constructor]. split; [rewrite Ep; discriminate|assumption].
Qed.

Lemma stdout_bytes_route fs :
  stdout_bytes (map route fs)
  = concat (map payload (List.filter (fun f => negb (to_stderr f)) fs)).
Proof.
  induction fs as [|f fs IH]; [reflexivity|].
  unfold stdout_bytes in *. cbn [map concat List.filter]. rewrite IH.
  unfold route, to_stderr.
  destruct (Byte.to_N (ftype f) =? 2)%N; reflexivity.
Qed.

Lemma stderr_bytes_route fs :
  stderr_bytes (map route fs)
  = concat (map payload (List.filter to_stderr fs)).
Proof.
  induction fs as [|f fs IH]; [reflexivity|].
  unfold stderr_bytes in *. cbn [map concat List.filter]. rewrite IH.
  unfold route, to_stderr.
  destruct (Byte.to_N (ftype f) =? 2)%N; reflexivity.
Qed.

End DemuxOnFrames.

(** C1, as the specification states it, fails: a frame with an empty payload
    stops the decoder, so the payload of a well-formed frame that follows it
    never reaches the local stdout. *)
Lemma demux_routes_every_frame_counterexample :
  let fs := [ Demux.mkFrame x01 (x00, x00, x00) [];
              Demux.mkFrame x01 (x00, x00, x00) [x61] ] in
  Forall Demux.fits fs
  /\ Demux.stdout_bytes (map Demux.route fs) = [x61]
  /\ Demux.stdout_bytes
       (Demux.written (Demux.demuxStream [Demux.encode_all fs])) = []
  /\ Demux.written (Demux.demuxStream [Demux.encode_all fs])
     <> map Demux.route fs.
Proof.
  split; [|split; [|split]]; try reflexivity.
  - repeat constructor.
  - discriminate.
Qed.

(** C1 (amended): for every stream that is a concatenation of well-formed
    frames, fed in chunks cut at arbitrary offsets, the demultiplexer writes
    the payloads of the frames that come before the first zero-length frame,
    in frame order, type 2 to stderr and every other type to stdout; and the
    state it reaches, outputs included, is the one reached by feeding the
    stream whole. *)
Theorem demux_routes_frames_any_split
    (fs : list Demux.frame) (chunks : list Buffer.t) :
  Forall Demux.fits fs ->
  concat chunks = Demux.encode_all fs ->
  let st := Demux.demuxStream chunks in
  Demux.written st = map Demux.route (Demux.before_zero_length fs)
  /\ Demux.stdout_bytes (Demux.written st)
     = concat (map Demux.payload
                 (List.filter (fun f => negb (Demux.to_stderr f))
                         (Demux.before_zero_length fs)))
  /\ Demux.stderr_bytes (Demux.written st)
     = concat (map Demux.payload
                 (List.filter Demux.to_stderr (Demux.before_zero_length fs)))
  /\ st = Demux.demuxStream [Demux.encode_all fs].
Proof.
  intros Hfit Hcat st.
  assert (Hw : Demux.written st = map Demux.route (Demux.before_zero_length fs)).
  { subst st. unfold Demux.demuxStream. rewrite feed_concat, Hcat. unfold Demux.push.
    cbn [Demux.header Demux.buffered Demux.written Demux.init app].
    rewrite written_on_frames by assumption. reflexivity. }
  repeat split.
  - exact Hw.
  - rewrite Hw. apply stdout_bytes_route.
  - rewrite Hw. apply stderr_bytes_route.
  - subst st. unfold Demux.demuxStream. rewrite !feed_concat, Hcat. simpl. rewrite app_nil_r. reflexivity.
Qed.

Lemma demux_routes_frames_any_split_witness :
  let fs := [ Demux.mkFrame x01 (x00, x00, x00) [x61; x62];
              Demux.mkFrame x02 (x00, x00, x00) [x63] ] in
  let chunks := [ [x01; x00; x00]; [x00; x00; x00; x00; x02; x61];
                  [x62; x02; x00; x00; x00; x00; x00; x00; x01; x63] ] in
  Demux.written (Demux.demuxStream chunks)
  = [Demux.Stdout [x61; x62]; Demux.Stderr [x63]].
Proof.
  intros fs chunks.
  refine (proj1 (demux_routes_frames_any_split fs chunks _ _)).
  - repeat constructor.
  - reflexivity.
Defined.

(** C8: when the stream reaches a frame whose header declares a payload of
    length zero, decoding stops there: whatever the chunking and whatever
    bytes follow, the writes made are those of the frames before it, so
    nothing is written for the zero-length frame, and the decoder stays on
    that header. *)
Theorem demux_zero_length_frame_stops
    (fs : list Demux.frame) (f0 : Demux.frame) (rest : Buffer.t)
    (chunks : list Buffer.t) :
  Forall Demux.carries_data fs ->
  Demux.payload f0 = [] ->
  concat chunks = Demux.encode_all fs ++ Demux.encode f0 ++ rest ->
  Demux.demuxStream chunks
  = {| Demux.header := Some (Demux.frame_header f0);
       Demux.buffered := rest;
       Demux.written := map Demux.route fs |}.
Proof.
  intros Hfs H0 Hcat.
  unfold Demux.demuxStream. rewrite feed_concat, Hcat. unfold Demux.push.
  cbn [Demux.header Demux.buffered Demux.written Demux.init app].
  rewrite route_frames by assumption.
  unfold Demux.encode. rewrite H0, app_nil_r.
  apply zero_header_parks.
  - apply frame_header_length.
  - rewrite frame_header_declares.
    + rewrite H0. reflexivity.
    + unfold Demux.fits. rewrite H0. reflexivity.
Qed.

Lemma demux_zero_length_frame_stops_witness :
  Demux.written
    (Demux.demuxStream [ [x01; x00; x00; x00; x00; x00; x00; x01; x61;
                   x01; x00; x00; x00]; [x00; x00; x00; x00;
                   x01; x00; x00; x00; x00; x00; x00; x01; x62] ])
  = [Demux.Stdout [x61]].
Proof.
  refine (f_equal Demux.written
            (demux_zero_length_frame_stops
               [Demux.mkFrame x01 (x00, x00, x00) [x61]]
               (Demux.mkFrame x01 (x00, x00, x00) [])
               [x01; x00; x00; x00; x00; x00; x00; x01; x62] _ _ _ _)).
  - repeat constructor. discriminate.
  - reflexivity.
  - reflexivity.
Defined.

(** ** Strings *)

Section StringFacts.
Local Arguments String.append : simpl nomatch.

Lemma append_nil_r (s : string) : s +:+ "" = s.
Proof. induction s as [|c s IH]; simpl; [reflexivity|]. rewrite IH. reflexivity. Qed.

Lemma append_assoc (a b c : string) : (a +:+ b) +:+ c = a +:+ (b +:+ c).
Proof. induction a as [|x a IH]; simpl; [reflexivity|]. rewrite IH. reflexivity. Qed.

(** Without placeholders in the format, the arguments follow it, each
    after a space. *)
Lemma format_failed_to_get_app (status text : string) :
  JS.format (JS.red "Failed to get app.") [status; text]
  = JS.red "Failed to get app." +:+ " " +:+ status +:+ " " +:+ text.
Proof. reflexivity. Qed.

Lemma format_failed_to_get_backup (status text : string) :
  JS.format (JS.red "Failed to get backup progress.") [status; text]
  = JS.red "Failed to get backup progress." +:+ " " +:+ status +:+ " " +:+ text.
Proof. reflexivity. Qed.

Lemma format_developer_notice (url : string) :
  JS.format (JS.red "CLI mode is disabled. Enable it at %s.") [url]
  = JS.red ("CLI mode is disabled. Enable it at " +:+ url +:+ ".").
Proof.
  unfold JS.format, JS.red, JS.style. cbn.
  rewrite append_nil_r, !append_assoc. reflexivity.
Qed.

End StringFacts.

(** ** The exec transport *)

Section ExecFacts.
Import IO Exec.

Lemma be32_length n : length (Buffer.be32 n) = 4.
Proof. reflexivity. Qed.

Lemma be32_decodes n :
  (n < 4294967296)%N -> Buffer.readUInt32BE (Buffer.be32 n) 0 = n.
Proof. intros Hn. apply (readUInt32BE_be32 [] n Hn). Qed.

Lemma on_stdin_data d :
  (N.of_nat (length d) < 4294967296)%N ->
  on_stdin (Data d) = Some (outbound_frame d).
Proof.
  intros Hd. unfold on_stdin, Buffer.writeUInt32BE.
  destruct (N.ltb_spec (N.of_nat (length d)) 4294967296); [reflexivity|lia].
Qed.

Lemma on_stdin_chunks chunks : forall tail ops,
  Forall (fun d => (N.of_nat (length d) < 4294967296)%N) chunks ->
  on_stdin_all tail = Some ops ->
  on_stdin_all (map Data chunks ++ tail)
  = Some (flat_map outbound_frame chunks ++ ops).
Proof.
  induction chunks as [|d ds IH]; intros tail ops Hall Htail; [exact Htail|].
  inversion Hall as [|? ? Hd Hds]; subst.
  cbn [map Datatypes.app on_stdin_all flat_map].
  rewrite (on_stdin_data d Hd), (IH tail ops Hds Htail).
  rewrite <- app_assoc. reflexivity.
Qed.

Lemma outbound_frames_are_writes chunks :
  forallb is_write (flat_map outbound_frame chunks) = true.
Proof. induction chunks as [|d ds IH]; [reflexivity|exact IH]. Qed.

Lemma getApp_found appId env reqs a :
  getApp appId env = (reqs, Found None (Some a)) ->
  exists path, reqs = [HttpGet path].
Proof.
  unfold getApp. intros H.
  destruct appId as [[|c s]|];
    repeat match type of H with
           | context [match ?x with _ => _ end] => destruct x
           end;
    try discriminate H; injection H as <- _; eauto.
Qed.

Lemma getApp_no_exec_request appId env :
  forallb (fun e => negb (is_exec_request e)) (fst (getApp appId env)) = true.
Proof.
  unfold getApp.
  destruct appId as [[|c s]|];
    repeat match goal with
           | |- context [match ?x with _ => _ end] => destruct x
           end;
    reflexivity.
Qed.

End ExecFacts.

(** C3: in non-TTY mode, for every sequence of stdin chunks (a Node buffer
    is shorter than 2^32 bytes), the socket receives for each chunk, in
    order, a 4-byte prefix that reads back big-endian as the length of the
    chunk and then the chunk; the end of stdin adds one write of four zero
    bytes; the socket is never ended. *)
Theorem exec_stdin_framing (chunks : list Buffer.t) :
  Forall (fun d => (N.of_nat (length d) < 4294967296)%N) chunks ->
  let ops := flat_map Exec.outbound_frame chunks
             ++ [Exec.SocketWrite [x00; x00; x00; x00]] in
  Exec.on_stdin_all (map Exec.Data chunks ++ [Exec.End_]) = Some ops
  /\ Forall (fun d =>
               length (Buffer.be32 (N.of_nat (length d))) = 4
               /\ Buffer.readUInt32BE (Buffer.be32 (N.of_nat (length d))) 0
                  = N.of_nat (length d)) chunks
  /\ forallb Exec.is_write ops = true.
Proof.
  intros Hall ops. split; [|split].
  - subst ops. apply on_stdin_chunks; [assumption|reflexivity].
  - eapply List.Forall_impl; [|exact Hall].
    intros d Hd. split; [apply be32_length|apply be32_decodes, Hd].
  - subst ops. rewrite forallb_app, outbound_frames_are_writes. reflexivity.
Qed.

Lemma exec_stdin_framing_witness :
  Exec.on_stdin_all [Exec.Data [x68; x69]; Exec.Data [x21]; Exec.End_]
  = Some [ Exec.SocketWrite [x00; x00; x00; x02]; Exec.SocketWrite [x68; x69];
           Exec.SocketWrite [x00; x00; x00; x01]; Exec.SocketWrite [x21];
           Exec.SocketWrite [x00; x00; x00; x00] ].
Proof.
  refine (proj1 (exec_stdin_framing [[x68; x69]; [x21]] _)).
  repeat constructor.
Defined.

(** C4: when the server answers the exec request with a plain response, the
    effects of the handler depend on the status code alone; they contain no
    request and end with the exit of the process; 412 prints the
    developer-mode notice, 403 reports that admins only can use the feature,
    and any other status reports the failed upgrade together with the
    status code. *)
Theorem exec_upgrade_refusal {B : Type} (apiEndpoint : string)
    (res res' : IO.response B) :
  IO.statusCode res = IO.statusCode res' ->
  Exec.handler apiEndpoint res = Exec.handler apiEndpoint res'
  /\ forallb (fun e => negb (IO.is_request e)) (Exec.handler apiEndpoint res)
     = true
  /\ (exists said args, Exec.handler apiEndpoint res = said ++ [IO.Exit args])
  /\ Exec.handler apiEndpoint res
     = (if (IO.statusCode res =? 412)%N then
          [IO.ConsoleError
             (JS.red ("CLI mode is disabled. Enable it at "
                      +:+ ("https://" +:+ apiEndpoint +:+ "/#/settings")
                      +:+ "."));
           IO.Exit []]
        else if (IO.statusCode res =? 403)%N then
          [IO.Exit [IO.Str (JS.red "Only admins can use this feature.")]]
        else
          [IO.Exit [IO.Str "Could not upgrade connection to tcp. http status:";
                    IO.Num (IO.statusCode res)]])
  /\ IO.exit_message
       [IO.Str "Could not upgrade connection to tcp. http status:";
        IO.Num (IO.statusCode res)]
     = "Could not upgrade connection to tcp. http status: "
       +:+ JS.of_N (IO.statusCode res).
Proof.
  intros Hs. unfold Exec.handler. rewrite <- Hs.
  unfold Exec.showDeveloperModeNotice. rewrite format_developer_notice.
  repeat split.
  - destruct (IO.statusCode res =? 412)%N; [reflexivity|].
    destruct (IO.statusCode res =? 403)%N; reflexivity.
  - destruct (IO.statusCode res =? 412)%N; [eexists [_], _; reflexivity|].
    destruct (IO.statusCode res =? 403)%N; eexists [], _; reflexivity.
Qed.

Lemma exec_upgrade_refusal_witness :
  Exec.handler "my.example.com" (IO.mkResponse 500 "oops" tt)
  = Exec.handler "my.example.com" (IO.mkResponse 500 "" tt).
Proof.
  refine (proj1 (exec_upgrade_refusal "my.example.com"
                   (IO.mkResponse 500 "oops" tt) (IO.mkResponse 500 "" tt) _)).
  reflexivity.
Defined.

(** C5, as the specification states it, fails: [exec] looks the application
    up first, so with [tty] set and a stdin that is no terminal a request
    has been made by the time the process ends with 'stdin is not tty'; and
    when the lookup gets no answer the process ends with that error
    instead. *)
Lemma exec_tty_check_counterexample :
  let env reply :=
    {| Exec.token := "secret"; Exec.apiEndpoint := "my.example.com";
       Exec.manifestFilePath := None; Exec.manifest_id := None;
       Exec.manifest_error := ""; Exec.app_reply := reply;
       Exec.selected := None |} in
  Exec.exec ["ls"] (Some "app1") true false None None
    (env (IO.Responded
            (IO.mkResponse 200 "" (IO.mkApp "app1" "installed" None None))))
  = [IO.HttpGet "/api/v1/apps/app1"; IO.Exit [IO.Str "stdin is not tty"]]
  /\ Exec.exec ["ls"] (Some "app1") true false None None
       (env (IO.NoResponse "connect ECONNREFUSED"))
     = [IO.HttpGet "/api/v1/apps/app1";
        IO.Exit [IO.Error "connect ECONNREFUSED"]].
Proof. split; reflexivity. Qed.

(** C5 (amended): if [exec] is invoked with [tty] set, or with an empty
    command, while the local stdin is not a terminal, the exec request is
    never made, so no socket is opened; and once the lookup of the
    application, which is one GET, has found it, the process ends right away
    with 'stdin is not tty'. *)
Theorem exec_tty_check (cmd : list string) (app : option string)
    (tty stdin_isTTY : bool) (rows columns : option N)
    (env : Exec.environment) :
  tty = true \/ cmd = [] ->
  stdin_isTTY = false ->
  let run := Exec.exec cmd app tty stdin_isTTY rows columns env in
  forallb (fun e => negb (IO.is_exec_request e)) run = true
  /\ forall reqs a,
       Exec.getApp app env = (reqs, Exec.Found None (Some a)) ->
       (exists path, reqs = [IO.HttpGet path])
       /\ run = reqs ++ [IO.Exit [IO.Str "stdin is not tty"]].
Proof.
  intros Htty -> run.
  assert (Hfound : forall a,
    (let (cmd', tty') :=
       match cmd with
       | [] => (["/bin/bash"], true)
       | _ :: _ => (cmd, tty)
       end in
     if tty' && negb false then [IO.Exit [IO.Str "stdin is not tty"]]
     else [IO.ExecRequest (Exec.apiEndpoint env)
             ("/api/v1/apps/" +:+ IO.id a +:+ "/exec")
             {| IO.rows := rows; IO.columns := columns;
                IO.access_token := Exec.token env; IO.cmd := cmd';
                IO.tty := tty' |}])
    = [IO.Exit [IO.Str "stdin is not tty"]]).
  { intros a. destruct Htty as [-> | ->]; [destruct cmd|]; reflexivity. }
  split.
  - subst run. unfold Exec.exec.
    pose proof (getApp_no_exec_request app env) as Hreq.
    destruct (Exec.getApp app env) as [reqs found]. cbn [fst] in Hreq.
    rewrite forallb_app, Hreq. cbn [andb].
    destruct found as [[error|] [a|]|]; try reflexivity.
    rewrite Hfound. reflexivity.
  - intros reqs a Hget. split; [eapply getApp_found, Hget|].
    subst run. unfold Exec.exec. rewrite Hget, Hfound. reflexivity.
Qed.

Lemma exec_tty_check_witness :
  forallb (fun e => negb (IO.is_exec_request e))
    (Exec.exec [] (Some "app1") false false None None
       {| Exec.token := "secret"; Exec.apiEndpoint := "my.example.com";
          Exec.manifestFilePath := None; Exec.manifest_id := None;
          Exec.manifest_error := "";
          Exec.app_reply :=
            IO.Responded
              (IO.mkResponse 200 "" (IO.mkApp "app1" "installed" None None));
          Exec.selected := None |}) = true.
Proof.
  refine (proj1 (exec_tty_check [] (Some "app1") false false None None _ _ _)).
  - right. reflexivity.
  - reflexivity.
Defined.

(** ** The pollers: failures *)

Section PollerFailures.
Import IO Poller.

Lemma message_mentions (what status text : string) :
  let msg := what +:+ " " +:+ status +:+ " " +:+ text in
  JS.occurs_in status msg /\ JS.occurs_in text msg.
Proof.
  intros msg. split.
  - exists (what +:+ " "), (" " +:+ text). subst msg.
    rewrite append_assoc. reflexivity.
  - exists (what +:+ " " +:+ status +:+ " "), "". subst msg.
    rewrite append_nil_r, !append_assoc. reflexivity.
Qed.

Lemma not_ok_status {B} (res : response B) :
  statusCode res <> 200%N -> negb (statusCode res =? 200)%N = true.
Proof. intros H. apply negb_true_iff, N.eqb_neq, H. Qed.

Lemma ok_status {B} (res : response B) :
  statusCode res = 200%N -> negb (statusCode res =? 200)%N = false.
Proof. intros ->. reflexivity. Qed.

End PollerFailures.

(** C2, as the specification states it, fails: the backup poller looks at
    the message only once the percentage has reached 100. A body that
    carries a message at 50 percent does not stop it: it prints a dot, sets
    the timer and asks again. *)
Lemma poller_failure_first_counterexample :
  Poller.backup_checkStatus
    [IO.Responded (IO.mkResponse 200 "" (IO.mkBackup 50 (Some "boom")))]
  = ([IO.HttpGet Poller.progress_path; IO.StdoutWrite "."; IO.SetTimeout 1000;
      IO.HttpGet Poller.progress_path],
     Poller.Polling).
Proof. reflexivity. Qed.

(** C2 (amended): on a poll answered with status 200, the backup poller
    inspects the completion predicate first: at 100 percent or more a
    non-empty message stops the polling with the error 'Backup failed: '
    followed by the message and an empty or absent one stops it without
    error, and below 100 percent the polling goes on whatever the message; the installation poller stops on the installation
    state 'error' with the installation progress as the error. *)
Theorem poller_failure_predicates
    (appId : string) (waitForHealthcheck : bool) (currentProgress : option string)
    (backup : IO.response IO.backup_progress) (app : IO.response IO.app)
    (later : list (IO.reply IO.backup_progress))
    (later' : list (IO.reply IO.app)) :
  IO.statusCode backup = 200%N ->
  IO.statusCode app = 200%N ->
  IO.installationState (IO.body app) = "error" ->
  ((100 <= IO.percent (IO.body backup))%Z ->
   JS.truthy (IO.message (IO.body backup)) = true ->
   Poller.backup_checkStatus (IO.Responded backup :: later)
   = ([IO.HttpGet Poller.progress_path],
      Poller.Finished
        (Some (IO.Error ("Backup failed: "
                         +:+ JS.of_nullable (IO.message (IO.body backup)))))))
  /\ ((100 <= IO.percent (IO.body backup))%Z ->
      JS.truthy (IO.message (IO.body backup)) = false ->
      Poller.backup_checkStatus (IO.Responded backup :: later)
      = ([IO.HttpGet Poller.progress_path], Poller.Finished None))
  /\ ((IO.percent (IO.body backup) < 100)%Z ->
      Poller.backup_checkStatus (IO.Responded backup :: later)
      = (IO.HttpGet Poller.progress_path :: IO.StdoutWrite "."
           :: IO.SetTimeout 1000 :: fst (Poller.backup_checkStatus later),
         snd (Poller.backup_checkStatus later)))
  /\ Poller.install_checkStatus appId waitForHealthcheck currentProgress
       (IO.Responded app :: later')
     = ([IO.HttpGet (Poller.app_path appId)],
        Poller.Finished
          (Some (IO.Error (JS.of_nullable
                             (IO.installationProgress (IO.body app)))))).
Proof.
  intros Hb Ha Herr. repeat split.
  - intros Hp Hm. cbn [Poller.backup_checkStatus Poller.backup_check].
    rewrite (ok_status _ Hb), Hm.
    destruct (Z.leb_spec 100 (IO.percent (IO.body backup))); [reflexivity|lia].
  - intros Hp Hm. cbn [Poller.backup_checkStatus Poller.backup_check].
    rewrite (ok_status _ Hb), Hm.
    destruct (Z.leb_spec 100 (IO.percent (IO.body backup))); [reflexivity|lia].
  - intros Hp. cbn [Poller.backup_checkStatus Poller.backup_check].
    rewrite (ok_status _ Hb).
    destruct (Z.leb_spec 100 (IO.percent (IO.body backup))); [lia|].
    destruct (Poller.backup_checkStatus later). reflexivity.
  - cbn [Poller.install_checkStatus Poller.install_check].
    rewrite (ok_status _ Ha), Herr. reflexivity.
Qed.

Lemma poller_failure_predicates_witness :
  Poller.install_checkStatus "app1" true (Some "")
    [IO.Responded
       (IO.mkResponse 200 "" (IO.mkApp "app1" "error" (Some "boom") None))]
  = ([IO.HttpGet (Poller.app_path "app1")],
     Poller.Finished (Some (IO.Error "boom"))).
Proof.
  refine (proj2 (proj2 (proj2 (poller_failure_predicates "app1" true (Some "")
            (IO.mkResponse 200 "" (IO.mkBackup 100 (Some "disk full")))
            (IO.mkResponse 200 "" (IO.mkApp "app1" "error" (Some "boom") None))
            [] [] _ _ _)))); reflexivity.
Defined.

(** C6, as the specification states it, fails for the uninstall poller: a
    poll answered with status 500 does not stop it. *)
Lemma pollers_fail_fast_counterexample :
  Poller.waitForFinish "app1"
    [IO.Responded
       (IO.mkResponse 500 "Internal Server Error"
                      (IO.mkApp "app1" "pending_uninstall" None None))]
  = ([IO.HttpGet (Poller.app_path "app1"); IO.StdoutWrite ".";
      IO.SetTimeout 1000; IO.HttpGet (Poller.app_path "app1")],
     Poller.Polling).
Proof. reflexivity. Qed.

(** C6 (amended): in every polling loop a poll that gets no HTTP response
    ends the polling at once with that error: the installation, health and
    backup pollers hand it to their callback, the uninstall poller ends the
    process with it; and in the installation, health and backup pollers a
    poll answered with a status other than 200 ends the polling at once with
    an error whose message contains the status code and the body text. No
    request follows in either case. For the uninstall poller status 404 is
    the completion. *)
Theorem pollers_fail_fast
    (appId : string) (waitForHealthcheck : bool) (currentProgress : option string)
    (e : string) (app : IO.response IO.app)
    (backup : IO.response IO.backup_progress)
    (later : list (IO.reply IO.app))
    (later' : list (IO.reply IO.backup_progress)) :
  IO.statusCode app <> 200%N ->
  IO.statusCode backup <> 200%N ->
  let failure := Poller.Finished (Some (IO.Error e)) in
  (Poller.install_checkStatus appId waitForHealthcheck currentProgress
     (IO.NoResponse e :: later) = ([IO.HttpGet (Poller.app_path appId)], failure)
   /\ Poller.healthy_checkStatus appId (IO.NoResponse e :: later)
      = ([IO.HttpGet (Poller.app_path appId)], failure)
   /\ Poller.backup_checkStatus (IO.NoResponse e :: later')
      = ([IO.HttpGet Poller.progress_path], failure)
   /\ Poller.waitForFinish appId (IO.NoResponse e :: later)
      = ([IO.HttpGet (Poller.app_path appId); IO.Exit [IO.Error e]],
         Poller.Terminated))
  /\ (exists msg,
        Poller.install_checkStatus appId waitForHealthcheck currentProgress
          (IO.Responded app :: later)
        = ([IO.HttpGet (Poller.app_path appId)],
           Poller.Finished (Some (IO.Error msg)))
        /\ Poller.healthy_checkStatus appId (IO.Responded app :: later)
           = ([IO.HttpGet (Poller.app_path appId)],
              Poller.Finished (Some (IO.Error msg)))
        /\ JS.occurs_in (JS.of_N (IO.statusCode app)) msg
        /\ JS.occurs_in (IO.text app) msg)
  /\ (exists msg,
        Poller.backup_checkStatus (IO.Responded backup :: later')
        = ([IO.HttpGet Poller.progress_path],
           Poller.Finished (Some (IO.Error msg)))
        /\ JS.occurs_in (JS.of_N (IO.statusCode backup)) msg
        /\ JS.occurs_in (IO.text backup) msg)
  /\ (IO.statusCode app = 404%N ->
      Poller.waitForFinish appId (IO.Responded app :: later)
      = ([IO.HttpGet (Poller.app_path appId);
          IO.ConsoleLog (JS.format (JS.LF +:+ JS.LF
                                    +:+ "App %s successfully uninstalled.")
                                   [JS.bold appId]);
          IO.Exit []],
         Poller.Terminated)).
Proof.
  intros Ha Hb failure. split; [|split; [|split]].
  - repeat split; reflexivity.
  - eexists. cbn [Poller.install_checkStatus Poller.install_check
                  Poller.healthy_checkStatus Poller.healthy_check].
    rewrite (not_ok_status _ Ha). unfold Poller.failed_to_get_app.
    rewrite format_failed_to_get_app.
    split; [reflexivity|]. split; [reflexivity|]. apply message_mentions.
  - eexists. cbn [Poller.backup_checkStatus Poller.backup_check].
    rewrite (not_ok_status _ Hb), format_failed_to_get_backup.
    split; [reflexivity|]. apply message_mentions.
  - intros H404. cbn [Poller.waitForFinish Poller.uninstall_check].
    rewrite H404. reflexivity.
Qed.

Lemma pollers_fail_fast_witness :
  exists msg,
    Poller.backup_checkStatus
      [IO.Responded (IO.mkResponse 502 "Bad Gateway" (IO.mkBackup 0 None))]
    = ([IO.HttpGet Poller.progress_path],
       Poller.Finished (Some (IO.Error msg)))
    /\ JS.occurs_in "502" msg /\ JS.occurs_in "Bad Gateway" msg.
Proof.
  refine (proj1 (proj2 (proj2 (pollers_fail_fast "app1" true (Some "") "timeout"
            (IO.mkResponse 503 "Service Unavailable"
               (IO.mkApp "app1" "pending_install" None None))
            (IO.mkResponse 502 "Bad Gateway" (IO.mkBackup 0 None))
            [] [] _ _)))); discriminate.
Defined.

(** ** The installation poller: progress labels *)

Section ProgressFacts.
Import IO Poller.
Local Arguments String.append : simpl nomatch.

Lemma split_without_separator sep s :
  JS.has_char sep s = false -> JS.split sep s = [s].
Proof.
  induction s as [|c s IH]; [reflexivity|].
  cbn [JS.has_char JS.split]. intros H.
  apply orb_false_iff in H as [Hc Hs].
  rewrite Hc, (IH Hs). reflexivity.
Qed.

Lemma split_at_separator sep a rest :
  JS.has_char sep a = false ->
  JS.split sep (a +:+ String sep rest) = a :: JS.split sep rest.
Proof.
  induction a as [|c a IH]; cbn [JS.has_char append JS.split]; intros H.
  - rewrite Ascii.eqb_refl. reflexivity.
  - apply orb_false_iff in H as [Hc Ha].
    rewrite Hc, (IH Ha). reflexivity.
Qed.

Lemma split_not_nil sep s : JS.split sep s <> [].
Proof.
  destruct s as [|c s]; cbn [JS.split]; [discriminate|].
  destruct (Ascii.eqb c sep); [discriminate|].
  destruct (JS.split sep s); discriminate.
Qed.

Lemma label_no_comma a :
  JS.has_char "," a = false -> installProgressLabel a = a.
Proof.
  intros Ha. unfold installProgressLabel.
  rewrite (split_without_separator _ _ Ha). reflexivity.
Qed.

Lemma label_two_parts a b :
  JS.has_char "," a = false -> JS.has_char "," b = false ->
  installProgressLabel (a +:+ "," +:+ b) = b.
Proof.
  intros Ha Hb. unfold installProgressLabel.
  change ("," +:+ b) with (String "," b).
  rewrite (split_at_separator _ _ _ Ha), (split_without_separator _ _ Hb).
  reflexivity.
Qed.

Lemma label_more_parts a b rest :
  JS.has_char "," a = false -> JS.has_char "," b = false ->
  installProgressLabel (a +:+ "," +:+ b +:+ "," +:+ rest) = a.
Proof.
  intros Ha Hb. unfold installProgressLabel.
  change ("," +:+ b +:+ "," +:+ rest) with (String "," (b +:+ String "," rest)).
  rewrite (split_at_separator _ _ _ Ha), (split_at_separator _ _ _ Hb).
  pose proof (split_not_nil "," rest) as Hne.
  destruct (JS.split "," rest); [congruence|reflexivity].
Qed.

Lemma strict_eq_refl v : JS.strict_eq v v = true.
Proof. destruct v as [s|]; [apply String.eqb_refl|reflexivity]. Qed.

Lemma strict_eq_differ v w : v <> w -> JS.strict_eq v w = false.
Proof.
  destruct v as [s|], w as [t|]; intros H; try reflexivity.
  - apply String.eqb_neq. congruence.
  - congruence.
Qed.

End ProgressFacts.

(** C7, as the specification states it, fails: a progress string with three
    comma-separated parts is not printed whole, its first part is. *)
Lemma install_progress_label_counterexample :
  length (JS.split "," "a,b,c") = 3
  /\ Poller.show_progress (Some "") (Some "a,b,c")
     = [IO.StdoutWrite (JS.LF +:+ " => " +:+ JS.cyan "a" +:+ " ")]
  /\ Poller.show_progress (Some "") (Some "a,b,c")
     <> [IO.StdoutWrite (JS.LF +:+ " => " +:+ JS.cyan "a,b,c" +:+ " ")].
Proof. repeat split. discriminate. Qed.

(** C7 (amended): the label of a progress string is its second part when
    splitting it on commas yields exactly two parts, and its first part
    otherwise, which is the whole string when there is no comma; a progress
    that differs from the one of the previous poll is printed as the
    trimmed label; a null progress on the first poll prints 'Waiting to
    start installation'; and a progress equal to the previous one prints no
    label: a dot when it is a non-empty string without 'Creating image',
    and nothing otherwise. *)
Theorem install_progress_label
    (a b rest p : string) (currentProgress : option string) :
  JS.has_char "," a = false ->
  JS.has_char "," b = false ->
  currentProgress <> Some p ->
  Poller.installProgressLabel a = a
  /\ Poller.installProgressLabel (a +:+ "," +:+ b) = b
  /\ Poller.installProgressLabel (a +:+ "," +:+ b +:+ "," +:+ rest) = a
  /\ Poller.show_progress currentProgress (Some p)
     = [IO.StdoutWrite
          (JS.LF +:+ " => "
           +:+ JS.cyan (JS.trim (Poller.installProgressLabel p)) +:+ " ")]
  /\ Poller.show_progress (Some "") None
     = [IO.StdoutWrite
          (JS.LF +:+ " => " +:+ JS.cyan "Waiting to start installation ")]
  /\ Poller.show_progress (Some p) None = Poller.show_progress (Some "") None
  /\ Poller.show_progress (Some p) (Some p)
     = (if JS.truthy (Some p) && negb (JS.includes "Creating image" p)
        then [IO.StdoutWrite "."] else [])
  /\ Poller.show_progress None None = [].
Proof.
  intros Ha Hb Hp. repeat split.
  - apply label_no_comma, Ha.
  - apply label_two_parts; assumption.
  - apply label_more_parts; assumption.
  - unfold Poller.show_progress. rewrite (strict_eq_differ _ _ Hp). reflexivity.
  - unfold Poller.show_progress. rewrite strict_eq_refl. reflexivity.
Qed.

Lemma install_progress_label_witness :
  Poller.installProgressLabel ("20" +:+ "," +:+ " Downloading image")
  = " Downloading image"
  /\ Poller.show_progress (Some "10, Starting") (Some "20, Downloading image")
     = [IO.StdoutWrite (JS.LF +:+ " => " +:+ JS.cyan "Downloading image" +:+ " ")].
Proof.
  split.
  - refine (proj1 (proj2 (install_progress_label
              "20" " Downloading image" "" "20, Downloading image"
              (Some "10, Starting") _ _ _))); [reflexivity..|discriminate].
  - refine (proj1 (proj2 (proj2 (proj2 (install_progress_label
              "20" " Downloading image" "" "20, Downloading image"
              (Some "10, Starting") _ _ _))))); [reflexivity..|discriminate].
Defined.

(** ** The health wait *)

Section HealthFacts.
Import IO Poller.
Local Arguments String.append : simpl nomatch.

Variable appId : string.

Lemma last_char_append s c : JS.last_char (s +:+ String c "") = Some c.
Proof.
  induction s as [|d s IH]; [reflexivity|].
  cbn [append JS.last_char]. rewrite IH.
  destruct s; reflexivity.
Qed.

(** Nothing the installation poller prints is the banner of the health
    wait: a label ends with a space, the banner does not. *)
Lemma show_progress_no_banner cur p : ~ In health_banner (show_progress cur p).
Proof.
  unfold show_progress, health_banner.
  destruct (JS.strict_eq cur p).
  - destruct (JS.truthy cur && _); cbn [In];
      [intros [H|[]]; discriminate H|intros []].
  - destruct p as [p|]; cbn [In]; intros [H|[]].
    + injection H as H. apply (f_equal JS.last_char) in H.
      rewrite last_char_append in H.
      discriminate H.
    + discriminate H.
Qed.

Lemma in_progress_check w cur r :
  in_progress r = true ->
  exists res,
    r = Responded res
    /\ install_check w cur r
       = (show_progress cur (installationProgress (body res))
            ++ [SetTimeout 1000],
          Again (installationProgress (body res))).
Proof.
  unfold in_progress, ok, has_state. destruct r as [e|res]; [discriminate|].
  intros H. apply andb_true_iff in H as [H Herr].
  apply andb_true_iff in H as [Hok Hinst].
  exists res. split; [reflexivity|]. cbn [install_check].
  rewrite Hok. apply negb_true_iff in Hinst, Herr.
  rewrite Hinst, Herr. reflexivity.
Qed.

Lemma installed_check w cur r :
  installed r = true ->
  install_check w cur r = ([], if w then Health else Stop None).
Proof.
  unfold installed, ok, has_state. destruct r as [e|res]; [discriminate|].
  intros H. apply andb_true_iff in H as [Hok Hinst].
  cbn [install_check]. rewrite Hok, Hinst. destruct w; reflexivity.
Qed.

(** An answer that lets the installation poller neither go on nor finish
    the installation makes it call back at once. *)
Lemma other_check w cur r :
  in_progress r = false -> installed r = false ->
  exists e, install_check w cur r = ([], Stop e).
Proof.
  unfold in_progress, installed, ok, has_state.
  destruct r as [e|res]; [eexists; reflexivity|].
  cbn [install_check].
  destruct (statusCode res =? 200)%N; [|eexists; reflexivity].
  destruct (String.eqb (installationState (body res)) "installed");
    [discriminate|].
  destruct (String.eqb (installationState (body res)) "error");
    [eexists; reflexivity|discriminate].
Qed.

Lemma install_alone_no_banner replies : forall cur,
  ~ In health_banner (fst (install_checkStatus appId false cur replies)).
Proof.
  induction replies as [|r rest IH]; intros cur.
  - cbn. intros [H|[]]. discriminate H.
  - cbn [install_checkStatus].
    destruct (in_progress r) eqn:Hp; [|destruct (installed r) eqn:Hi].
    + destruct (in_progress_check false cur r Hp) as (res & -> & ->).
      specialize (IH (installationProgress (body res))).
      destruct (install_checkStatus appId false _ rest) as [more o].
      cbn [fst] in *. intros [H|H]; [discriminate H|].
      rewrite !in_app_iff in H. destruct H as [[H|H]|H].
      * exact (show_progress_no_banner _ _ H).
      * destruct H as [H|[]]. discriminate H.
      * exact (IH H).
    + rewrite (installed_check false cur r Hi).
      cbn. intros [H|[]]. discriminate H.
    + destruct (other_check false cur r Hp Hi) as [e ->].
      cbn. intros [H|[]]. discriminate H.
Qed.

(** The health wait begins when the installation poller, asked to wait for
    the health check, meets the first answer with the installation
    finished; what came before is the installation poller alone. *)
Lemma install_then_health pre : forall cur r post,
  Forall (fun r => in_progress r = true) pre ->
  installed r = true ->
  install_checkStatus appId true cur (pre ++ r :: post)
  = (fst (install_checkStatus appId false cur (pre ++ [r]))
       ++ fst (waitForHealthy appId post),
     snd (waitForHealthy appId post))
  /\ snd (install_checkStatus appId false cur (pre ++ [r])) = Finished None.
Proof.
  induction pre as [|r0 pre IH]; intros cur r post Hpre Hr.
  - cbn [Datatypes.app install_checkStatus].
    rewrite !(installed_check _ cur r Hr).
    destruct (waitForHealthy appId post) as [more o]. split; reflexivity.
  - inversion Hpre as [|? ? Hr0 Hpre']; subst.
    cbn [Datatypes.app install_checkStatus].
    destruct (in_progress_check true cur r0 Hr0) as (res & -> & Ht).
    destruct (in_progress_check false cur (Responded res) Hr0) as (res' & E & Hf).
    injection E as <-. rewrite Ht, Hf.
    destruct (IH (installationProgress (body res)) r post Hpre' Hr) as [E1 E2].
    rewrite E1.
    destruct (install_checkStatus appId false _ (pre ++ [r])) as [more o].
    cbn [fst snd] in *. split; [|exact E2].
    cbn [Datatypes.app]. rewrite <- ?app_assoc. cbn [Datatypes.app].
    reflexivity.
Qed.

Lemma health_banner_after_installed replies : forall cur,
  In health_banner (fst (install_checkStatus appId true cur replies)) ->
  exists pre r post,
    replies = pre ++ r :: post
    /\ Forall (fun r => in_progress r = true) pre
    /\ installed r = true.
Proof.
  induction replies as [|r rest IH]; intros cur.
  - cbn. intros [H|[]]. discriminate H.
  - cbn [install_checkStatus].
    destruct (in_progress r) eqn:Hp; [|destruct (installed r) eqn:Hi].
    + destruct (in_progress_check true cur r Hp) as (res & -> & ->).
      specialize (IH (installationProgress (body res))).
      destruct (install_checkStatus appId true _ rest) as [more o].
      cbn [fst] in *. intros [H|H]; [discriminate H|].
      rewrite !in_app_iff in H. destruct H as [[H|H]|H].
      * destruct (show_progress_no_banner _ _ H).
      * destruct H as [H|[]]. discriminate H.
      * destruct (IH H) as (pre & r' & post & -> & Hpre & Hr').
        exists (Responded res :: pre), r', post.
        split; [reflexivity|]. split; [constructor; assumption|assumption].
    + intros _. exists [], r, rest.
      split; [reflexivity|]. split; [constructor|assumption].
    + destruct (other_check true cur r Hp Hi) as [e ->].
      cbn. intros [H|[]]. discriminate H.
Qed.

Lemma unhealthy_check r :
  unhealthy r = true ->
  healthy_check r = ([StdoutWrite "."; SetTimeout 1000], Again None).
Proof.
  unfold unhealthy, ok, reports_healthy. destruct r as [e|res]; [discriminate|].
  intros H. apply andb_true_iff in H as [Hok Hh].
  cbn [healthy_check]. rewrite Hok. apply negb_true_iff in Hh.
  rewrite Hh. reflexivity.
Qed.

Lemma healthy_check_done r :
  healthy r = true -> healthy_check r = ([], Stop None).
Proof.
  unfold healthy, ok, reports_healthy. destruct r as [e|res]; [discriminate|].
  intros H. apply andb_true_iff in H as [Hok Hh].
  cbn [healthy_check]. rewrite Hok, Hh. reflexivity.
Qed.

Lemma health_wait_until pre : forall r post,
  Forall (fun r => unhealthy r = true) pre ->
  healthy r = true ->
  healthy_checkStatus appId (pre ++ r :: post)
  = (flat_map (fun _ => health_round appId) pre ++ [HttpGet (app_path appId)],
     Finished None).
Proof.
  induction pre as [|r0 pre IH]; intros r post Hpre Hr.
  - cbn [Datatypes.app healthy_checkStatus flat_map].
    rewrite (healthy_check_done r Hr). reflexivity.
  - inversion Hpre as [|? ? Hr0 Hpre']; subst.
    cbn [Datatypes.app healthy_checkStatus flat_map].
    rewrite (unhealthy_check r0 Hr0), (IH r post Hpre' Hr). reflexivity.
Qed.

Lemma health_wait_goes_on replies :
  Forall (fun r => unhealthy r = true) replies ->
  healthy_checkStatus appId replies
  = (flat_map (fun _ => health_round appId) replies
       ++ [HttpGet (app_path appId)],
     Polling).
Proof.
  induction replies as [|r0 pre IH]; intros Hpre; [reflexivity|].
  inversion Hpre as [|? ? Hr0 Hpre']; subst.
  cbn [healthy_checkStatus flat_map].
  rewrite (unhealthy_check r0 Hr0), (IH Hpre'). reflexivity.
Qed.

End HealthFacts.

(** C9: with the health wait requested, the banner that opens the health
    wait appears only when an answer with status 200 and the installation
    state 'installed' has been received, all answers before it being
    in-progress ones, and everything the health wait does comes after what
    the installation poller did up to that answer; the installation poller
    and the health wait ask for the same application resource; the health
    wait sets the 1000 ms timer before each of its requests, and on
    answers with status 200 it calls back without error on the first one
    whose health is 'healthy', after a dot for each earlier one, and keeps
    polling while there is none. *)
Theorem health_wait_after_installation
    (appId : string) (pre post replies : list (IO.reply IO.app))
    (r : IO.reply IO.app) (waitForHealthcheck : bool) :
  (In Poller.health_banner
      (fst (Poller.waitForFinishInstallation appId true replies)) ->
   exists pre' r' post',
     replies = pre' ++ r' :: post'
     /\ Forall (fun r => Poller.in_progress r = true) pre'
     /\ Poller.installed r' = true)
  /\ (Forall (fun r => Poller.in_progress r = true) pre ->
      Poller.installed r = true ->
      Poller.waitForFinishInstallation appId true (pre ++ r :: post)
      = (fst (Poller.waitForFinishInstallation appId false (pre ++ [r]))
           ++ fst (Poller.waitForHealthy appId post),
         snd (Poller.waitForHealthy appId post))
      /\ snd (Poller.waitForFinishInstallation appId false (pre ++ [r]))
         = Poller.Finished None
      /\ ~ In Poller.health_banner
             (fst (Poller.waitForFinishInstallation appId false (pre ++ [r]))))
  /\ (exists more,
        fst (Poller.waitForFinishInstallation appId waitForHealthcheck replies)
        = IO.HttpGet (Poller.app_path appId) :: more)
  /\ (Forall (fun r => Poller.unhealthy r = true) pre ->
      Poller.healthy r = true ->
      Poller.waitForHealthy appId (pre ++ r :: post)
      = (Poller.health_banner :: IO.SetTimeout 1000
           :: flat_map (fun _ => Poller.health_round appId) pre
           ++ [IO.HttpGet (Poller.app_path appId)],
         Poller.Finished None))
  /\ (Forall (fun r => Poller.unhealthy r = true) replies ->
      Poller.waitForHealthy appId replies
      = (Poller.health_banner :: IO.SetTimeout 1000
           :: flat_map (fun _ => Poller.health_round appId) replies
           ++ [IO.HttpGet (Poller.app_path appId)],
         Poller.Polling)).
Proof.
  split; [|split; [|split; [|split]]].
  - apply health_banner_after_installed.
  - intros Hpre Hr. unfold Poller.waitForFinishInstallation.
    destruct (install_then_health appId pre (Some "") r post Hpre Hr) as [E1 E2].
    split; [exact E1|]. split; [exact E2|]. apply install_alone_no_banner.
  - unfold Poller.waitForFinishInstallation.
    destruct replies as [|r0 rest]; [eexists; reflexivity|].
    cbn [Poller.install_checkStatus].
    destruct (Poller.install_check waitForHealthcheck (Some "") r0) as [out [e| | |cur]].
    + eexists; reflexivity.
    + eexists; reflexivity.
    + destruct (Poller.waitForHealthy appId rest). eexists; reflexivity.
    + destruct (Poller.install_checkStatus appId waitForHealthcheck cur rest).
      eexists; reflexivity.
  - intros Hpre Hr. unfold Poller.waitForHealthy.
    rewrite (health_wait_until appId pre r post Hpre Hr). reflexivity.
  - intros Hall. unfold Poller.waitForHealthy.
    rewrite (health_wait_goes_on appId replies Hall). reflexivity.
Qed.

Lemma health_wait_after_installation_witness :
  Poller.waitForHealthy "app1"
    [ IO.Responded (IO.mkResponse 200 ""
                      (IO.mkApp "app1" "installed" None (Some "unhealthy")));
      IO.Responded (IO.mkResponse 200 ""
                      (IO.mkApp "app1" "installed" None (Some "healthy"))) ]
  = ([ Poller.health_banner; IO.SetTimeout 1000;
       IO.HttpGet "/api/v1/apps/app1"; IO.StdoutWrite "."; IO.SetTimeout 1000;
       IO.HttpGet "/api/v1/apps/app1" ],
     Poller.Finished None).
Proof.
  refine (proj1 (proj2 (proj2 (proj2
            (health_wait_after_installation "app1"
               [IO.Responded (IO.mkResponse 200 ""
                  (IO.mkApp "app1" "installed" None (Some "unhealthy")))]
               [] []
               (IO.Responded (IO.mkResponse 200 ""
                  (IO.mkApp "app1" "installed" None (Some "healthy"))))
               true)))) _ _).
  - repeat constructor.
  - reflexivity.
Defined.

(** ** The configuration store *)

Lemma ordinary_not_inherited k :
  Config.ordinary k = true -> Config.inherited k = false.
Proof.
  unfold Config.ordinary. intros H. apply andb_true_iff in H as [_ H].
  apply negb_true_iff, H.
Qed.

Lemma has_own k st :
  Config.inherited k = false ->
  Config.has [k] st = bool_decide (is_Some (Config.gConfig st !! k)).
Proof.
  intros H. unfold Config.has. cbn [forallb].
  rewrite H, orb_false_r, andb_true_r. reflexivity.
Qed.

(** C10, as the specification states it, fails for a key that names a
    property every object inherits: [has] tests with [in], so after
    [unset('constructor')] the store still has ['constructor']. *)
Lemma config_store_laws_counterexample :
  Config.has ["constructor"]
    (Config.unset ["constructor"]
       (Config.set (Config.Key "constructor") (Config.Text "x")
          {| Config.gConfig := {[ "token" := Config.Text "abc" ]};
             Config.file := {[ "token" := Config.Text "abc" ]} |}))
  = true.
Proof. reflexivity. Qed.

(** C10 (amended): for every key of the flat namespace that names nothing
    inherited from [Object.prototype], and every value, [get] after [set]
    returns the value and [has] is then true; after [unset], [has] is false
    and [get] returns [undefined]; and [set] leaves what is stored under
    every other such key as it was. *)
Theorem config_store_laws
    (k k' : string) (v : Config.value) (st : Config.store) :
  Config.ordinary k = true ->
  Config.ordinary k' = true ->
  k' <> k ->
  Config.get k (Config.set (Config.Key k) v st) = v
  /\ Config.has [k] (Config.set (Config.Key k) v st) = true
  /\ Config.has [k] (Config.unset [k] st) = false
  /\ Config.get k (Config.unset [k] st) = Config.Undefined
  /\ Config.get k' (Config.set (Config.Key k) v st) = Config.get k' st
  /\ Config.has [k'] (Config.set (Config.Key k) v st) = Config.has [k'] st.
Proof.
  intros Hk Hk' Hne.
  apply ordinary_not_inherited in Hk, Hk'.
  rewrite !(has_own k), !(has_own k') by assumption.
  unfold Config.get, Config.set, Config.unset, Config.save,
    Config.safe_query, Config.safe_set, Config.safe_unset.
  cbn [Config.gConfig fold_left].
  rewrite lookup_insert_eq, lookup_delete_eq, !lookup_insert_ne by congruence.
  repeat split.
Qed.

Lemma config_store_laws_witness :
  Config.get "token"
    (Config.set (Config.Key "token") (Config.Text "abc")
       {| Config.gConfig := {[ "cloudron" := Config.Text "my.example.com" ]};
          Config.file := ∅ |})
  = Config.Text "abc"
  /\ Config.has ["token"]
       (Config.unset ["token"]
          {| Config.gConfig := {[ "token" := Config.Text "abc" ]};
             Config.file := ∅ |})
     = false.
Proof.
  split.
  - refine (proj1 (config_store_laws "token" "cloudron" (Config.Text "abc")
                     _ _ _ _)); [reflexivity|reflexivity|discriminate].
  - refine (proj1 (proj2 (proj2
             (config_store_laws "token" "cloudron" (Config.Text "abc")
                _ _ _ _)))); [reflexivity|reflexivity|discriminate].
Defined.

(** ** Runs on concrete inputs *)

(** Two frames delivered in one chunk: the first to stdout, the second,
    of type 2, to stderr. *)
Example demux_two_frames :
  Demux.written
    (Demux.demuxStream
       [[x01; x00; x00; x00; x00; x00; x00; x02; x61; x62;
         x02; x00; x00; x00; x00; x00; x00; x01; x63]])
  = [Demux.Stdout [x61; x62]; Demux.Stderr [x63]].
Proof. reflexivity. Qed.

(** A header cut in two and a payload that arrives later. *)
Example demux_partial_reads :
  map Demux.written
    [ Demux.demuxStream [[x01; x00; x00]];
      Demux.demuxStream [[x01; x00; x00]; [x00; x00; x00; x00; x02]];
      Demux.demuxStream [[x01; x00; x00]; [x00; x00; x00; x00; x02]; [x61]];
      Demux.demuxStream [[x01; x00; x00]; [x00; x00; x00; x00; x02]; [x61];
                         [x62]] ]
  = [ []; []; []; [Demux.Stdout [x61; x62]] ].
Proof. reflexivity. Qed.

Example split_examples :
  JS.split "," "10,Downloading image" = ["10"; "Downloading image"]
  /\ JS.split "," "" = [""]
  /\ JS.split "," "a," = ["a"; ""]
  /\ JS.trim "  Creating image  " = "Creating image".
Proof. repeat split. Qed.

Example format_examples :
  JS.format "App %s not found." ["app1"] = "App app1 not found."
  /\ JS.format "100%% of %d" ["7"; "extra"] = "100% of 7 extra"
  /\ JS.format "Failed." ["500"; "oops"] = "Failed. 500 oops".
Proof. repeat split. Qed.

(** An installation that reports no progress, then a progress, then the same
    progress, and is then installed; the health check answers at once. *)
Example install_run :
  let reply state progress health :=
    IO.Responded (IO.mkResponse 200 "" (IO.mkApp "app1" state progress health)) in
  Poller.waitForFinishInstallation "app1" true
    [ reply "pending_install" None None;
      reply "pending_install" (Some "20, Downloading image") None;
      reply "pending_install" (Some "20, Downloading image") None;
      reply "installed" (Some "") None;
      reply "installed" (Some "") (Some "healthy") ]
  = ([ IO.HttpGet "/api/v1/apps/app1";
       IO.StdoutWrite (JS.LF +:+ " => "
                       +:+ JS.cyan "Waiting to start installation ");
       IO.SetTimeout 1000;
       IO.HttpGet "/api/v1/apps/app1";
       IO.StdoutWrite (JS.LF +:+ " => " +:+ JS.cyan "Downloading image" +:+ " ");
       IO.SetTimeout 1000;
       IO.HttpGet "/api/v1/apps/app1";
       IO.StdoutWrite ".";
       IO.SetTimeout 1000;
       IO.HttpGet "/api/v1/apps/app1";
       Poller.health_banner;
       IO.SetTimeout 1000;
       IO.HttpGet "/api/v1/apps/app1" ],
     Poller.Finished None).
Proof. reflexivity. Qed.

(** A backup that ends with a message has failed. *)
Example backup_run :
  Poller.waitForBackupCompletion
    [ IO.Responded (IO.mkResponse 200 "" (IO.mkBackup 40 (Some "Copying")));
      IO.Responded (IO.mkResponse 200 "" (IO.mkBackup 100 (Some "disk full"))) ]
  = ([ IO.StdoutWrite "Waiting for box backup to finish...";
       IO.HttpGet "/api/v1/cloudron/progress"; IO.StdoutWrite ".";
       IO.SetTimeout 1000; IO.HttpGet "/api/v1/cloudron/progress" ],
     Poller.Finished (Some (IO.Error "Backup failed: disk full"))).
Proof. reflexivity. Qed.

Example exec_runs :
  let env :=
    {| Exec.token := "secret"; Exec.apiEndpoint := "my.example.com";
       Exec.manifestFilePath := None; Exec.manifest_id := None;
       Exec.manifest_error := "";
       Exec.app_reply :=
         IO.Responded
           (IO.mkResponse 200 "" (IO.mkApp "app1" "installed" None None));
       Exec.selected := None |} in
  Exec.exec ["ls"; "-l"] (Some "app1") false false None None env
  = [ IO.HttpGet "/api/v1/apps/app1";
      IO.ExecRequest "my.example.com" "/api/v1/apps/app1/exec"
        (IO.mkQuery None None "secret" ["ls"; "-l"] false) ]
  /\ Exec.exec [] None false true (Some 24%N) (Some 80%N) env
     = [ IO.Exit [IO.Str "No CloudronManifest.json found"] ].
Proof. split; reflexivity. Qed.

(* ===================================================================== *)
(** * Part III: further properties of the code                            *)
(* ===================================================================== *)

(** ** The demultiplexer on arbitrary streams *)

Section DecoderFacts.
Import Demux Decoder.

Lemma read_length n buf p b' :
  read n buf = Some (p, b') ->
  length p = N.to_nat n /\ length buf = length p + length b' /\ p <> [].
Proof.
  intros H. destruct (read_Some _ _ _ _ H) as (Hn & Hle & -> & ->).
  rewrite length_take, length_drop. repeat split; try lia.
  destruct buf; [simpl in Hle; lia|].
  destruct (N.to_nat n) eqn:E; [lia|discriminate].
Qed.

Lemma read_None n buf :
  read n buf = None -> n = 0%N \/ (N.of_nat (length buf) < n)%N.
Proof.
  unfold read. destruct (N.eqb_spec n 0); [auto|].
  destruct (N.leb_spec n (N.of_nat (length buf))); [discriminate|auto].
Qed.

Lemma sum_written_app out w :
  sum_written (out ++ [w]) = sum_written out + (8 + length (payload_of w)).
Proof.
  unfold sum_written. rewrite map_app, list_sum_app. simpl. lia.
Qed.

(** What one run of the loop keeps: the state it ends in is settled, every
    byte is accounted for, the writes so far are kept and the new ones are
    not empty. *)
Lemma loop_keeps f : forall hd buf out,
  length hd = 8 -> length buf < f ->
  let st := loop f hd buf out in
  settled st
  /\ accounted st = sum_written out + 8 + length buf
  /\ exists more, written st = out ++ more
                  /\ Forall (fun w => payload_of w <> []) more.
Proof.
  induction f as [|f IH]; intros hd buf out Hhd Hf; [lia|].
  cbn [loop].
  destruct (read (Buffer.readUInt32BE hd 4) buf) as [[p b']|] eqn:E1.
  - destruct (read_length _ _ _ _ E1) as (Hp & Hlen & Hne).
    set (w := if (Buffer.readUInt8 hd 0 =? 2)%N then Stderr p else Stdout p).
    assert (Hw : payload_of w = p) by (subst w; destruct (_ =? _)%N; reflexivity).
    destruct (read 8 b') as [[hd' b'']|] eqn:E2.
    + destruct (read_length _ _ _ _ E2) as (Hp2 & Hlen2 & _).
      destruct (IH hd' b'' (out ++ [w])) as (Hs & Ha & more & Hm & Hall);
        [exact Hp2|lia|].
      split; [exact Hs|]. split.
      * rewrite Ha, sum_written_app, Hw. simpl in Hp2. lia.
      * exists (w :: more). split.
        -- rewrite Hm, <- app_assoc. reflexivity.
        -- constructor; [rewrite Hw; exact Hne|exact Hall].
    + split; [|split].
      * unfold settled. cbn [header buffered].
        destruct (read_None _ _ E2) as [H|H]; lia.
      * unfold accounted. cbn [header buffered written].
        fold (sum_written (out ++ [w])). rewrite sum_written_app, Hw. lia.
      * exists [w]. split; [reflexivity|].
        constructor; [rewrite Hw; exact Hne|constructor].
  - split; [|split].
    + unfold settled. cbn [header buffered]. split; [exact Hhd|].
      destruct (read_None _ _ E1); auto.
    + unfold accounted. cbn [header buffered written].
      fold (sum_written out). lia.
    + exists []. rewrite app_nil_r. split; [reflexivity|constructor].
Qed.

Lemma on_readable_keeps buf :
  let st := on_readable {| header := None; buffered := buf; written := [] |} in
  settled st
  /\ accounted st = length buf
  /\ Forall (fun w => payload_of w <> []) (written st).
Proof.
  unfold on_readable. cbn [header buffered written].
  destruct (read 8 buf) as [[hd b']|] eqn:E.
  - destruct (read_length _ _ _ _ E) as (Hp & Hlen & _).
    destruct (loop_keeps (S (length b')) hd b' []) as (Hs & Ha & more & Hm & Hall);
      [exact Hp|lia|].
    split; [exact Hs|]. split.
    + rewrite Ha. simpl in *. lia.
    + rewrite Hm. exact Hall.
  - split; [|split].
    + unfold settled. cbn [header buffered].
      destruct (read_None _ _ E) as [H|H]; lia.
    + reflexivity.
    + constructor.
Qed.

Lemma demuxStream_whole chunks :
  demuxStream chunks
  = on_readable {| header := None; buffered := concat chunks; written := [] |}.
Proof. unfold demuxStream. rewrite feed_concat. reflexivity. Qed.

End DecoderFacts.

(** X1: the state of the demultiplexer, its output included, depends only on
    the bytes received so far and not on how they were cut into chunks; this
    holds for every byte stream, well-formed or not. *)
Theorem demux_any_stream_any_split (chunks chunks' : list Buffer.t) :
  concat chunks = concat chunks' ->
  Demux.demuxStream chunks = Demux.demuxStream chunks'.
Proof. intros H. rewrite !demuxStream_whole, H. reflexivity. Qed.

Lemma demux_any_stream_any_split_witness :
  Demux.demuxStream [[x02; x00]; [x00; x00; x00; x00; x00]; [x01; x7a; xff]]
  = Demux.demuxStream [[x02; x00; x00; x00; x00; x00; x00; x01; x7a; xff]].
Proof.
  refine (demux_any_stream_any_split
            [[x02; x00]; [x00; x00; x00; x00; x00]; [x01; x7a; xff]]
            [[x02; x00; x00; x00; x00; x00; x00; x01; x7a; xff]] _).
  reflexivity.
Defined.

(** X2: whatever bytes arrive, the demultiplexer never calls [write] with an
    empty payload. *)
Theorem demux_never_writes_empty (chunks : list Buffer.t) :
  Forall (fun w => Decoder.payload_of w <> [])
         (Demux.written (Demux.demuxStream chunks)).
Proof. rewrite demuxStream_whole. apply on_readable_keeps. Qed.


(** X4: after every chunk the demultiplexer has delivered all it can: it
    holds no header only with fewer than 8 bytes buffered, and a header of 8
    bytes only if that header declares a length of zero or more bytes than
    are buffered. *)
Theorem demux_delivers_eagerly (chunks : list Buffer.t) :
  Decoder.settled (Demux.demuxStream chunks).
Proof. rewrite demuxStream_whole. apply on_readable_keeps. Qed.

Section PartialFrame.
Import Demux Decoder.

Variables (f : frame) (part missing : Buffer.t).
Hypothesis Hfit : fits f.
Hypothesis Hmissing : missing <> [].
Hypothesis Hwhole : encode f = part ++ missing.

Lemma partial_header :
  8 <= length part ->
  part = frame_header f ++ skipn 8 part
  /\ payload f = skipn 8 part ++ missing.
Proof.
  intros Hle.
  assert (Hhd : firstn 8 part = frame_header f).
  { rewrite <- (take_app_le part missing 8) by exact Hle.
    rewrite <- Hwhole. unfold encode.
    rewrite take_app_le by (rewrite frame_header_length; lia).
    apply firstn_all2. rewrite frame_header_length. lia. }
  assert (Hsplit : part = frame_header f ++ skipn 8 part).
  { rewrite <- Hhd. symmetry. apply firstn_skipn. }
  split; [exact Hsplit|].
  pose proof Hwhole as H. unfold encode in H.
  rewrite Hsplit, <- app_assoc in H at 1.
  apply app_inv_head in H. exact H.
Qed.

Lemma partial_state out :
  on_readable {| header := None; buffered := part; written := out |}
  = if (length part <? 8)%nat
    then {| header := None; buffered := part; written := out |}
    else {| header := Some (frame_header f); buffered := skipn 8 part;
            written := out |}.
Proof.
  unfold on_readable. cbn [header buffered written].
  destruct (Nat.ltb_spec (length part) 8) as [Hlt|Hle].
  - unfold read. cbn [N.eqb].
    destruct (N.leb_spec 8 (N.of_nat (length part))); [lia|reflexivity].
  - destruct (partial_header Hle) as [Hsplit Hpay].
    remember (skipn 8 part) as rest eqn:Erest. rewrite Hsplit.
    rewrite read_exact by (rewrite ?frame_header_length; reflexivity || lia).
    cbn [loop]. rewrite frame_header_declares by exact Hfit.
    assert (Hnone : read (N.of_nat (length (payload f))) rest = None).
    { unfold read.
      destruct (N.eqb_spec (N.of_nat (length (payload f))) 0); [reflexivity|].
      destruct (N.leb_spec (N.of_nat (length (payload f)))
                           (N.of_nat (length rest))) as [Hle'|];
        [|reflexivity].
      rewrite Hpay, length_app in Hle'.
      destruct missing; [congruence|simpl in Hle'; lia]. }
    rewrite Hnone. reflexivity.
Qed.

Lemma partial_at_end out :
  on_end (on_readable {| header := None; buffered := part; written := out |})
  = match part with
    | [] => Ended {| header := None; buffered := []; written := out |}
    | _ :: _ =>
        if (length part <? 8)%nat then Threw out
        else match skipn 8 part with
             | [] => Ended {| header := Some (frame_header f); buffered := [];
                              written := out |}
             | got =>
                 Ended {| header := None; buffered := [];
                          written := out ++ [if to_stderr f then Stderr got
                                             else Stdout got] |}
             end
    end.
Proof.
  rewrite partial_state.
  destruct (Nat.ltb_spec (length part) 8) as [Hlt|Hle].
  - unfold on_end. cbn [header buffered written].
    destruct part as [|b part']; [reflexivity|].
    unfold read_ended. cbn [N.eqb]. change (N.to_nat 8) with 8.
    rewrite firstn_all2 by lia. rewrite skipn_all2 by lia.
    assert (Hb : (length (b :: part') <? 8)%nat = true)
      by (apply Nat.ltb_lt; exact Hlt).
    cbn [loop_ended]. rewrite Hb. reflexivity.
  - destruct (partial_header Hle) as [Hsplit Hpay].
    destruct part as [|b part'] eqn:Ep; [cbn in Hle; lia|]. rewrite <- Ep in *.
    unfold on_end. cbn [header buffered written loop_ended].
    rewrite frame_header_length. cbn [Nat.ltb Nat.leb].
    rewrite frame_header_declares by exact Hfit.
    unfold read_ended at 1.
    destruct (N.eqb_spec (N.of_nat (length (payload f))) 0) as [Hz|Hnz].
    { rewrite Hpay, length_app in Hz. destruct missing; [congruence|].
      simpl in Hz. lia. }
    destruct (skipn 8 part) as [|x got] eqn:Eg; [reflexivity|].
    assert (Hlen : length (x :: got) <= N.to_nat (N.of_nat (length (payload f)))).
    { rewrite Hpay, length_app. lia. }
    rewrite firstn_all2 by exact Hlen. rewrite skipn_all2 by exact Hlen.
    unfold read_ended. cbn [N.eqb].
    rewrite frame_header_type. reflexivity.
Qed.

End PartialFrame.

(** X5: a frame whose bytes have not all arrived is not written while the
    stream is open, but is written in part when the stream ends there. When
    the stream so far is a sequence of data frames followed by the
    beginning of another one, the writes are exactly those of the complete
    frames. When the stream then ends, the listener runs once more: if more
    than the 8 bytes of the header had arrived, the part of the payload
    that is there is written as that frame's payload; if only the header,
    or nothing, had arrived, nothing more is written; and if from 1 to 7
    bytes of the header had arrived, reading the length throws. *)
Theorem demux_partial_frame
    (fs : list Demux.frame) (f : Demux.frame) (part : Buffer.t)
    (chunks : list Buffer.t) :
  Forall Demux.carries_data fs ->
  Demux.fits f ->
  Decoder.cut_short part (Demux.encode f) ->
  concat chunks = Demux.encode_all fs ++ part ->
  let got := skipn 8 part in
  Demux.written (Demux.demuxStream chunks) = map Demux.route fs
  /\ (length part = 0 \/ length part = 8 ->
      Decoder.at_end chunks = Decoder.Ended (Demux.demuxStream chunks))
  /\ (0 < length part < 8 ->
      Decoder.at_end chunks = Decoder.Threw (map Demux.route fs))
  /\ (8 < length part ->
      Decoder.at_end chunks
      = Decoder.Ended
          {| Demux.header := None; Demux.buffered := [];
             Demux.written :=
               map Demux.route fs
                 ++ [if Demux.to_stderr f then Demux.Stderr got
                     else Demux.Stdout got] |}).
Proof.
  intros Hfs Hfit (missing & Hmiss & Hwhole) Hcat got.
  assert (Hopen : Demux.demuxStream chunks
                  = Demux.on_readable
                      {| Demux.header := None; Demux.buffered := part;
                         Demux.written := map Demux.route fs |}).
  { rewrite demuxStream_whole, Hcat, route_frames by assumption. reflexivity. }
  pose proof (partial_state f part missing Hfit Hmiss Hwhole
                (map Demux.route fs)) as Hst.
  pose proof (partial_at_end f part missing Hfit Hmiss Hwhole
                (map Demux.route fs)) as Hend.
  unfold Decoder.at_end. rewrite Hopen, Hend.
  split; [|split; [|split]].
  - rewrite Hst. destruct (length part <? 8)%nat; reflexivity.
  - intros [H0|H8].
    + destruct part; [|discriminate H0]. rewrite Hst. reflexivity.
    + rewrite Hst. destruct part as [|b part']; [discriminate H8|].
      cbv iota. rewrite H8. cbn [Nat.ltb Nat.leb].
      rewrite skipn_all2 by lia. reflexivity.
  - intros [Hpos Hlt]. destruct part as [|b part']; [cbn in Hpos; lia|].
    cbv iota.
    destruct (Nat.ltb_spec (length (b :: part')) 8); [reflexivity|lia].
  - intros Hgt. destruct part as [|b part']; [cbn in Hgt; lia|].
    cbv iota.
    destruct (Nat.ltb_spec (length (b :: part')) 8); [lia|].
    subst got. destruct (skipn 8 (b :: part')) as [|x got'] eqn:Eg;
      [|reflexivity].
    pose proof (f_equal (@length _) Eg) as Hl.
    rewrite length_skipn in Hl. cbn [length] in Hl. cbn [length] in Hgt. lia.
Qed.

Lemma demux_partial_frame_witness :
  let chunks := [[x01; x00; x00; x00; x00; x00; x00; x01; x61;
                  x02; x00; x00; x00; x00; x00; x00; x03; x62; x63]] in
  Demux.written (Demux.demuxStream chunks) = [Demux.Stdout [x61]]
  /\ Decoder.at_end chunks
     = Decoder.Ended
         {| Demux.header := None; Demux.buffered := [];
            Demux.written := [Demux.Stdout [x61]; Demux.Stderr [x62; x63]] |}.
Proof.
  intros chunks.
  destruct (demux_partial_frame
              [Demux.mkFrame x01 (x00, x00, x00) [x61]]
              (Demux.mkFrame x02 (x00, x00, x00) [x62; x63; x64])
              [x02; x00; x00; x00; x00; x00; x00; x03; x62; x63]
              chunks) as (Hopen & _ & _ & Hend).
  - repeat constructor. discriminate.
  - reflexivity.
  - exists [x64]. split; [discriminate|reflexivity].
  - reflexivity.
  - split; [exact Hopen|]. apply Hend. cbn. lia.
Defined.

(** ** The outbound frames as a byte stream *)

Section WireFacts.
Import Exec Wire.

Lemma on_stdin_data_fits d ops :
  on_stdin (Data d) = Some ops ->
  (N.of_nat (length d) < 4294967296)%N /\ ops = outbound_frame d.
Proof.
  unfold on_stdin, Buffer.writeUInt32BE.
  destruct (N.ltb_spec (N.of_nat (length d)) 4294967296); [|discriminate].
  intros [= <-]. split; [assumption|reflexivity].
Qed.

Lemma on_stdin_all_data chunks : forall ops,
  on_stdin_all (map Data chunks) = Some ops ->
  Forall (fun d => (N.of_nat (length d) < 4294967296)%N) chunks
  /\ ops = flat_map outbound_frame chunks.
Proof.
  induction chunks as [|d ds IH]; intros ops.
  - intros [= <-]. split; [constructor|reflexivity].
  - cbn [map on_stdin_all].
    destruct (on_stdin (Data d)) as [o|] eqn:E; [|discriminate].
    destruct (on_stdin_all (map Data ds)) as [more|]; [|discriminate].
    intros [= <-]. destruct (on_stdin_data_fits d o E) as [Hd ->].
    destruct (IH more eq_refl) as [Hds ->].
    split; [constructor; assumption|reflexivity].
Qed.

Lemma sent_frames d ds :
  sent (flat_map outbound_frame (d :: ds))
  = Buffer.be32 (N.of_nat (length d)) ++ d ++ sent (flat_map outbound_frame ds).
Proof. reflexivity. Qed.

Lemma be32_inj n m :
  (n < 4294967296)%N -> (m < 4294967296)%N ->
  Buffer.be32 n = Buffer.be32 m -> n = m.
Proof.
  intros Hn Hm H.
  rewrite <- (be32_decodes n Hn), <- (be32_decodes m Hm), H. reflexivity.
Qed.

Lemma sent_frames_inj c1 : forall c2,
  Forall (fun d => (N.of_nat (length d) < 4294967296)%N) c1 ->
  Forall (fun d => (N.of_nat (length d) < 4294967296)%N) c2 ->
  sent (flat_map outbound_frame c1) = sent (flat_map outbound_frame c2) ->
  c1 = c2.
Proof.
  induction c1 as [|d1 c1 IH]; intros [|d2 c2] H1 H2 Heq.
  - reflexivity.
  - rewrite sent_frames in Heq. discriminate Heq.
  - rewrite sent_frames in Heq. discriminate Heq.
  - inversion H1 as [|? ? Hd1 Hc1]; inversion H2 as [|? ? Hd2 Hc2]; subst.
    rewrite !sent_frames in Heq.
    apply app_inj_1 in Heq as [Hlen Heq]; [|rewrite !be32_length; reflexivity].
    apply be32_inj in Hlen; [|assumption..].
    apply app_inj_1 in Heq as [-> Heq]; [|lia].
    f_equal. apply IH; assumption.
Qed.

End WireFacts.

(** X6: the outbound framing is unambiguous: two sequences of stdin chunks
    that put the same bytes on the socket are the same sequence, chunk
    boundaries included. *)
Theorem exec_stdin_framing_injective
    (chunks chunks' : list Buffer.t) (ops ops' : list Exec.socket_op) :
  Exec.on_stdin_all (map Exec.Data chunks) = Some ops ->
  Exec.on_stdin_all (map Exec.Data chunks') = Some ops' ->
  Wire.sent ops = Wire.sent ops' ->
  chunks = chunks'.
Proof.
  intros H1 H2 Heq.
  destruct (on_stdin_all_data _ _ H1) as [Hc1 ->].
  destruct (on_stdin_all_data _ _ H2) as [Hc2 ->].
  eapply sent_frames_inj; eassumption.
Qed.

Lemma exec_stdin_framing_injective_witness :
  [[x68; x69]; [x21]] = [[x68; x69]; [x21]].
Proof.
  refine (exec_stdin_framing_injective [[x68; x69]; [x21]] [[x68; x69]; [x21]]
            _ _ _ _ _); reflexivity.
Defined.

(** X7: the end-of-input marker, four zero bytes, is what a data chunk is
    prefixed with exactly when the chunk is empty: the frame of a chunk that
    has bytes never begins with the marker, and an empty chunk is written as
    the marker alone. *)
Theorem exec_stdin_end_marker (d : Buffer.t) :
  (N.of_nat (length d) < 4294967296)%N ->
  (Buffer.writeUInt32BE (N.of_nat (length d)) = Buffer.writeUInt32BE 0
   <-> d = [])
  /\ (Wire.sent <$> Exec.on_stdin (Exec.Data d)
      = Wire.sent <$> Exec.on_stdin Exec.End_
      <-> d = []).
Proof.
  intros Hd.
  assert (Hw : Buffer.writeUInt32BE (N.of_nat (length d))
               = Some (Buffer.be32 (N.of_nat (length d)))).
  { unfold Buffer.writeUInt32BE.
    destruct (N.ltb_spec (N.of_nat (length d)) 4294967296); [reflexivity|lia]. }
  split; split.
  - rewrite Hw. change (Buffer.writeUInt32BE 0) with (Some (Buffer.be32 0)).
    intros H. apply (inj Some) in H.
    apply be32_inj in H; [|assumption|reflexivity].
    destruct d; [reflexivity|discriminate].
  - intros ->. reflexivity.
  - rewrite (on_stdin_data d Hd).
    change (Exec.on_stdin Exec.End_)
      with (Some [Exec.SocketWrite (Buffer.be32 0)]).
    cbn [fmap option_fmap option_map]. intros H. apply (inj Some) in H.
    apply (f_equal (@length _)) in H.
    unfold Wire.sent, Exec.outbound_frame in H.
    cbn [map concat Wire.bytes_of] in H.
    rewrite !length_app, !be32_length in H.
    destruct d; [reflexivity|simpl in H; lia].
  - intros ->. reflexivity.
Qed.

Lemma exec_stdin_end_marker_witness :
  Buffer.writeUInt32BE (N.of_nat (length [x61])) = Buffer.writeUInt32BE 0
  <-> [x61] = ([] : Buffer.t).
Proof.
  refine (proj1 (exec_stdin_end_marker [x61] _)). reflexivity.
Defined.

(** ** The request of [exec] *)

Section ExecRequestFacts.
Import IO Exec.

Lemma getApp_shape appId env :
  (exists gets a e, getApp appId env = (gets, Found e a)
                    /\ forallb Trace.is_get gets = true /\ length gets <= 1
                    /\ (e = None \/ a = None))
  \/ (exists gets args, getApp appId env = (gets ++ [Exit args], Ended)
                        /\ forallb Trace.is_get gets = true /\ length gets <= 1).
Proof.
  unfold getApp.
  destruct appId as [[|c s]|];
    repeat match goal with
           | |- context [match ?x with _ => _ end] => destruct x
           end;
    try (left; eexists _, _, _; split; [reflexivity|];
         split; [reflexivity|]; split; [simpl; lia|]; auto; fail);
    try (right; eexists [_], _; split; [reflexivity|];
         split; [reflexivity|]; simpl; lia);
    try (right; eexists [], _; split; [reflexivity|];
         split; [reflexivity|]; simpl; lia).
Qed.

End ExecRequestFacts.

(** X8: whenever [exec] makes the exec request, the request is well formed:
    it goes to the configured endpoint with the stored token, for the
    application the lookup returned; its command is the one given, or
    ['/bin/bash'] when none was given, and so is never empty; its tty flag
    is set when it was asked for or when no command was given; and a request
    with the tty flag is made only if the local stdin is a terminal. *)
Theorem exec_request_well_formed
    (cmd : list string) (app : option string) (tty stdin_isTTY : bool)
    (rows columns : option N) (env : Exec.environment)
    (hostname path : string) (query : IO.exec_query) :
  In (IO.ExecRequest hostname path query)
     (Exec.exec cmd app tty stdin_isTTY rows columns env) ->
  hostname = Exec.apiEndpoint env
  /\ IO.access_token query = Exec.token env
  /\ IO.rows query = rows /\ IO.columns query = columns
  /\ IO.cmd query = (match cmd with [] => ["/bin/bash"] | _ :: _ => cmd end)
  /\ IO.cmd query <> []
  /\ IO.tty query = (match cmd with [] => true | _ :: _ => tty end)
  /\ (IO.tty query = true -> stdin_isTTY = true)
  /\ exists a,
       snd (Exec.getApp app env) = Exec.Found None (Some a)
       /\ path = "/api/v1/apps/" +:+ IO.id a +:+ "/exec".
Proof.
  unfold Exec.exec.
  destruct (getApp_shape app env)
    as [(gets & a & e & -> & Hgets & _ & _)|(gets & args & -> & Hgets & _)];
    intros Hin; cbn [snd].
  - apply in_app_or in Hin as [Hin|Hin].
    { rewrite forallb_forall in Hgets. apply Hgets in Hin. discriminate Hin. }
    destruct e as [error|]; [destruct Hin as [H|[]]; discriminate H|].
    destruct a as [a|]; [|destruct Hin as [H|[]]; discriminate H].
    destruct cmd as [|c cmd']; cbn [andb] in Hin.
    + destruct stdin_isTTY; cbn in Hin; destruct Hin as [H|[]];
        [|discriminate H].
      injection H as <- <- <-. cbn.
      repeat split; try discriminate; eauto.
    + destruct tty, stdin_isTTY; cbn in Hin; destruct Hin as [H|[]];
        try discriminate H; injection H as <- <- <-; cbn;
        repeat split; try discriminate; eauto.
  - rewrite app_nil_r in Hin. apply in_app_or in Hin as [Hin|Hin].
    + rewrite forallb_forall in Hgets. apply Hgets in Hin. discriminate Hin.
    + destruct Hin as [H|[]]. discriminate H.
Qed.

Lemma exec_request_well_formed_witness :
  IO.cmd (IO.mkQuery (Some 24%N) (Some 80%N) "secret" ["/bin/bash"] true)
  = ["/bin/bash"].
Proof.
  refine (proj1 (proj2 (proj2 (proj2 (proj2
    (exec_request_well_formed [] (Some "app1") false true
       (Some 24%N) (Some 80%N)
       {| Exec.token := "secret"; Exec.apiEndpoint := "my.example.com";
          Exec.manifestFilePath := None; Exec.manifest_id := None;
          Exec.manifest_error := "";
          Exec.app_reply :=
            IO.Responded
              (IO.mkResponse 200 "" (IO.mkApp "app1" "installed" None None));
          Exec.selected := None |}
       "my.example.com" "/api/v1/apps/app1/exec"
       (IO.mkQuery (Some 24%N) (Some 80%N) "secret" ["/bin/bash"] true) _)))))).
  right. left. reflexivity.
Defined.

(** ** Choosing among the installed apps *)

Section SelectFacts.
Import IO Terminal Select.

Lemma digits_after_positive d : forall p,
  digits (NilEmpty.string_of_uint d) (N.pos p) = N.pos (Pos.of_uint_acc d p).
Proof.
  induction d; intros p; cbn [NilEmpty.string_of_uint Pos.of_uint_acc];
    try reflexivity;
    cbn [digits]; unfold digit; cbn [nat_of_ascii]; simpl;
    rewrite <- IHd; f_equal; lia.
Qed.

Lemma digits_of_uint d : digits (NilEmpty.string_of_uint d) 0 = N.of_uint d.
Proof.
  unfold N.of_uint.
  induction d; cbn [NilEmpty.string_of_uint Pos.of_uint];
    try reflexivity;
    cbn [digits]; unfold digit; cbn [nat_of_ascii]; simpl;
    solve [exact IHd | apply digits_after_positive].
Qed.

(** Reading back a number that was printed gives the number. *)
Lemma parseInt_of_N n : parseInt (JS.of_N n) = Some (Z.of_N n).
Proof.
  unfold JS.of_N, NilZero.string_of_uint.
  pose proof (DecimalN.Unsigned.of_to n) as Hn.
  rewrite <- digits_of_uint in Hn.
  destruct (N.to_uint n) eqn:E;
    try (unfold parseInt; cbn [NilEmpty.string_of_uint JS.trim_left];
         unfold JS.is_space; cbn [nat_of_ascii]; simpl;
         unfold leading_number, digit; cbn [nat_of_ascii]; simpl;
         cbn [NilEmpty.string_of_uint] in Hn;
         unfold digits in Hn; fold digits in Hn;
         unfold digit in Hn; cbn [nat_of_ascii] in Hn; simpl in Hn;
         unfold digits; fold digits; unfold digit; cbn [nat_of_ascii]; simpl;
         rewrite Hn; reflexivity).
  destruct n; [discriminate E|].
  destruct (Unsigned.to_uint_nonnil _ E).
Qed.

Lemma valid_answer count answer :
  invalid count answer = false ->
  exists index, parseInt answer = Some index /\ (0 <= index < Z.of_nat count)%Z.
Proof.
  unfold invalid. destruct (parseInt answer) as [index|]; [|discriminate].
  intros H. apply orb_false_iff in H as [H1 H2].
  apply Z.ltb_ge in H1, H2. exists index. split; [reflexivity|lia].
Qed.

Lemma printed_index_valid count i :
  i < count -> invalid count (JS.of_N (N.of_nat i)) = false.
Proof.
  intros Hi. unfold invalid. rewrite parseInt_of_N.
  apply orb_false_iff. split; apply Z.ltb_ge; lia.
Qed.

Lemma choose_sound l answers : forall evs e a,
  choose l answers = (evs, Callback e a) ->
  e = None /\ exists x, a = Some x /\ In x l.
Proof.
  induction answers as [|answer rest IH]; intros evs e a; cbn [choose].
  - discriminate.
  - destruct (invalid (length l) answer) eqn:Hinv.
    + destruct (choose l rest) as [more r] eqn:E. intros [= _ ->].
      eapply IH. reflexivity.
    + intros [= _ <- <-]. split; [reflexivity|].
      destruct (valid_answer _ _ Hinv) as (index & -> & Hrange).
      destruct (nth_error l (Z.to_nat index)) as [x|] eqn:Hx.
      * exists x. split; [reflexivity|]. eapply nth_error_In, Hx.
      * apply nth_error_None in Hx. lia.
Qed.

Lemma choose_retries l bad : forall answers,
  Forall (fun answer => invalid (length l) answer = true) bad ->
  choose l (bad ++ answers)
  = (flat_map (fun _ => [Question (prompt (length l));
                         Did (ConsoleLog (JS.red "Invalid selection"))]) bad
       ++ fst (choose l answers),
     snd (choose l answers)).
Proof.
  induction bad as [|b bad IH]; intros answers Hbad.
  - cbn. destruct (choose l answers). reflexivity.
  - inversion Hbad as [|? ? Hb Hbad']; subst.
    cbn [Datatypes.app choose flat_map]. rewrite Hb, (IH answers Hbad').
    reflexivity.
Qed.

Lemma choose_questions l answers :
  existsb is_question (fst (choose l answers)) = true.
Proof.
  destruct answers as [|answer rest]; cbn [choose]; [reflexivity|].
  destruct (invalid (length l) answer); [|reflexivity].
  destruct (choose l rest). reflexivity.
Qed.

Lemma listing_no_question apps : forall index,
  existsb is_question (listing index apps) = false.
Proof. induction apps as [|a apps IH]; intros index; [reflexivity|apply IH]. Qed.

Lemma filter_available appId apps x :
  In x (List.filter (available appId) apps) ->
  In x apps /\ JS.truthy (appStoreId x) = false /\ manifest_id x = appId.
Proof.
  intros H. apply filter_In in H as [Hin Hav]. split; [exact Hin|].
  unfold available in Hav. apply andb_true_iff in Hav as [H1 H2].
  split; [apply negb_true_iff, H1|apply String.eqb_eq, H2].
Qed.

End SelectFacts.

(** X10: when [selectAvailableApp] calls back without error, it hands over
    an app, and that app is one of the apps the server listed with status
    200, is not installed from the store and has the manifest id that was
    asked for. *)
Theorem selectAvailableApp_sound
    (appId : string) (r : IO.reply (list Select.listed))
    (answers : list string) (evs : list Terminal.event)
    (a : option Select.listed) :
  Select.selectAvailableApp appId r answers = (evs, Select.Callback None a) ->
  exists res x,
    r = IO.Responded res /\ IO.statusCode res = 200%N
    /\ a = Some x /\ In x (IO.body res)
    /\ JS.truthy (Select.appStoreId x) = false
    /\ Select.manifest_id x = appId.
Proof.
  unfold Select.selectAvailableApp.
  destruct r as [e|res]; [discriminate|].
  destruct (N.eqb_spec (IO.statusCode res) 200) as [H200|]; [|discriminate].
  cbn [negb].
  destruct (List.filter (Select.available appId) (IO.body res))
    as [|x1 [|x2 l]] eqn:Hf.
  - discriminate.
  - intros [= _ <-]. exists res, x1.
    assert (Hin : In x1 (List.filter (Select.available appId) (IO.body res)))
      by (rewrite Hf; left; reflexivity).
    apply filter_available in Hin as (? & ? & ?). auto 10.
  - destruct (Select.choose (x1 :: x2 :: l) answers) as [more result] eqn:E.
    intros [= _ ->].
    destruct (choose_sound _ _ _ _ _ E) as (_ & x & -> & Hin).
    rewrite <- Hf in Hin. apply filter_available in Hin as (? & ? & ?).
    exists res, x. auto 10.
Qed.

Lemma selectAvailableApp_sound_witness :
  exists res x,
    IO.Responded
      (IO.mkResponse 200 ""
         [ Select.mkListed (IO.mkApp "a1" "installed" None None)
                           (Some "io.store.app") "org.test" "shop";
           Select.mkListed (IO.mkApp "a2" "installed" None None)
                           None "org.test" "blog" ])
    = IO.Responded res /\ IO.statusCode res = 200%N
    /\ Some (Select.mkListed (IO.mkApp "a2" "installed" None None)
                             None "org.test" "blog") = Some x
    /\ In x (IO.body res)
    /\ JS.truthy (Select.appStoreId x) = false
    /\ Select.manifest_id x = "org.test".
Proof.
  refine (selectAvailableApp_sound "org.test" _ [] _ _ _). reflexivity.
Defined.

(** X11: [selectAvailableApp] puts a question to the user only when at
    least two apps qualify; a single qualifying app is handed over at once
    and none gives the error 'No apps installed.'. *)
Theorem selectAvailableApp_asks_only_to_choose
    (appId : string) (res : IO.response (list Select.listed))
    (answers : list string) :
  IO.statusCode res = 200%N ->
  let availableApps := List.filter (Select.available appId) (IO.body res) in
  let run := Select.selectAvailableApp appId (IO.Responded res) answers in
  (existsb Terminal.is_question (fst run) = true <-> 2 <= length availableApps)
  /\ (forall a, availableApps = [a] ->
        run = ([Terminal.Did (IO.HttpGet "/api/v1/apps")],
               Select.Callback None (Some a)))
  /\ (availableApps = [] ->
        run = ([Terminal.Did (IO.HttpGet "/api/v1/apps")],
               Select.Callback (Some (IO.Error "No apps installed.")) None)).
Proof.
  intros H200 availableApps run. subst run availableApps.
  unfold Select.selectAvailableApp. rewrite H200. cbn [N.eqb Pos.eqb negb].
  destruct (List.filter (Select.available appId) (IO.body res))
    as [|x1 [|x2 l]] eqn:Hf.
  - repeat split; try discriminate; simpl; intros; lia.
  - repeat split; try discriminate; try (simpl; intros; lia).
    intros a [= <-]. reflexivity.
  - pose proof (choose_questions (x1 :: x2 :: l) answers) as Hq.
    destruct (Select.choose (x1 :: x2 :: l) answers) as [more result].
    cbn [fst] in *. repeat split; try discriminate; try (simpl; intros; lia).
    intros _. cbn [existsb Terminal.is_question orb].
    rewrite existsb_app, Hq. apply orb_true_r.
Qed.

Lemma selectAvailableApp_asks_only_to_choose_witness :
  Select.selectAvailableApp "org.test"
    (IO.Responded
       (IO.mkResponse 200 ""
          [ Select.mkListed (IO.mkApp "a2" "installed" None None)
                            None "org.test" "blog" ])) []
  = ([Terminal.Did (IO.HttpGet "/api/v1/apps")],
     Select.Callback None
       (Some (Select.mkListed (IO.mkApp "a2" "installed" None None)
                              None "org.test" "blog"))).
Proof.
  refine (proj1 (proj2 (selectAvailableApp_asks_only_to_choose "org.test"
            (IO.mkResponse 200 ""
               [ Select.mkListed (IO.mkApp "a2" "installed" None None)
                                 None "org.test" "blog" ]) [] _)) _ _);
    reflexivity.
Defined.

(** X12: in the choice among several apps every answer that is not a number
    between 0 and the last index is turned down with 'Invalid selection' and
    the question is put again; answering with an index as the listing
    prints it hands over the app listed under that index, and the answers
    that follow are not read. *)
Theorem choose_retries_until_valid
    (availableApps : list Select.listed) (bad rest : list string)
    (i : nat) (a : Select.listed) :
  Forall (fun answer =>
            Select.invalid (length availableApps) answer = true) bad ->
  nth_error availableApps i = Some a ->
  Select.choose availableApps (bad ++ JS.of_N (N.of_nat i) :: rest)
  = (flat_map (fun _ =>
       [Terminal.Question (Select.prompt (length availableApps));
        Terminal.Did (IO.ConsoleLog (JS.red "Invalid selection"))]) bad
     ++ [Terminal.Question (Select.prompt (length availableApps))],
     Select.Callback None (Some a)).
Proof.
  intros Hbad Hi. rewrite (choose_retries _ _ _ Hbad).
  cbn [Select.choose].
  assert (Hlt : i < length availableApps)
    by (apply nth_error_Some; congruence).
  rewrite (printed_index_valid _ _ Hlt), parseInt_of_N.
  replace (Z.to_nat (Z.of_N (N.of_nat i))) with i by lia.
  rewrite Hi. reflexivity.
Qed.

Lemma choose_retries_until_valid_witness :
  let apps := [ Select.mkListed (IO.mkApp "a1" "installed" None None)
                                None "org.test" "shop";
                Select.mkListed (IO.mkApp "a2" "installed" None None)
                                None "org.test" "blog" ] in
  Select.choose apps ["two"; ""; "2"; "-1"; "1"; "0"]
  = ([ Terminal.Question "Choose app [0-1]: ";
       Terminal.Did (IO.ConsoleLog (JS.red "Invalid selection"));
       Terminal.Question "Choose app [0-1]: ";
       Terminal.Did (IO.ConsoleLog (JS.red "Invalid selection"));
       Terminal.Question "Choose app [0-1]: ";
       Terminal.Did (IO.ConsoleLog (JS.red "Invalid selection"));
       Terminal.Question "Choose app [0-1]: ";
       Terminal.Did (IO.ConsoleLog (JS.red "Invalid selection"));
       Terminal.Question "Choose app [0-1]: " ],
     Select.Callback None
       (Some (Select.mkListed (IO.mkApp "a2" "installed" None None)
                              None "org.test" "blog"))).
Proof.
  intros apps.
  refine (choose_retries_until_valid apps ["two"; ""; "2"; "-1"] ["0"] 1 _ _ _).
  - repeat constructor.
  - reflexivity.
Defined.

(** ** Names of Cloudrons, endpoints and urls *)

Section EndpointFacts.
Import Endpoint.
Local Arguments String.append : simpl nomatch.

Lemma before_without c s : JS.has_char c s = false -> before c s = s.
Proof.
  induction s as [|d s IH]; [reflexivity|]. cbn [JS.has_char before].
  intros H. apply orb_false_iff in H as [Hd Hs]. rewrite Hd, (IH Hs).
  reflexivity.
Qed.

Lemma before_at c s rest :
  JS.has_char c s = false -> before c (s +:+ String c rest) = s.
Proof.
  induction s as [|d s IH]; cbn [JS.has_char before append]; intros H.
  - rewrite Ascii.eqb_refl. reflexivity.
  - apply orb_false_iff in H as [Hd Hs]. rewrite Hd, (IH Hs). reflexivity.
Qed.

Lemma before_has_none c s : JS.has_char c (before c s) = false.
Proof.
  induction s as [|d s IH]; [reflexivity|]. cbn [before].
  destruct (Ascii.eqb d c) eqn:E; [reflexivity|].
  cbn [JS.has_char]. rewrite E, IH. reflexivity.
Qed.

Lemma prefix_append p s : String.prefix p (p +:+ s) = true.
Proof.
  induction p as [|c p IH]; cbn; [destruct s; reflexivity|].
  destruct (ascii_dec c c); [exact IH|congruence].
Qed.

Lemma slice_from_append p s : slice_from (String.length p) (p +:+ s) = s.
Proof. induction p as [|c p IH]; [reflexivity|exact IH]. Qed.

Lemma strip_prefixed p s : strip p (p +:+ s) = s.
Proof. unfold strip. rewrite prefix_append. apply slice_from_append. Qed.

Lemma strip_other p s : String.prefix p s = false -> strip p s = s.
Proof. unfold strip. intros ->. reflexivity. Qed.

End EndpointFacts.

Section EndpointForms.
Import Endpoint.
Local Arguments String.append : simpl nomatch.

Lemma prefix_my_dot h rest :
  JS.has_char "/" h = false -> String.prefix "my." h = false ->
  String.prefix "my." (h +:+ String "/" rest) = false.
Proof.
  intros Hs Hp.
  destruct h as [|a [|b [|c h]]]; cbn [append String.prefix] in *;
    repeat match goal with
           | |- context [ascii_dec ?x ?y] => destruct (ascii_dec x y)
           end;
    try solve [reflexivity | discriminate | congruence].
  destruct h; discriminate Hp.
Qed.

Lemma name_after_strips h rest :
  JS.has_char "/" h = false -> String.prefix "my." h = false ->
  before "/" (strip "my." (h +:+ String "/" rest)) = h.
Proof.
  intros Hs Hp. rewrite strip_other by (apply prefix_my_dot; assumption).
  apply before_at, Hs.
Qed.

End EndpointForms.

(** X13: the name of a Cloudron is found in each of the forms a user may
    type: for a name without slash that does not itself begin with 'my.',
    the url or host of its 'my-' endpoint and of its 'my.' endpoint, with or
    without 'https://' and a path, all give the name; so does the bare name
    when it begins with none of the prefixes. *)
Theorem cloudron_name_of_every_form (h path : string) :
  JS.has_char "/" h = false ->
  String.prefix "my." h = false ->
  Endpoint.cloudron_name ("https://my-" +:+ h +:+ "/" +:+ path) = h
  /\ Endpoint.cloudron_name ("https://my." +:+ h +:+ "/" +:+ path) = h
  /\ Endpoint.cloudron_name ("my-" +:+ h) = h
  /\ Endpoint.cloudron_name ("my." +:+ h) = h
  /\ (String.prefix "my-" h = false -> String.prefix "https://" h = false ->
      Endpoint.cloudron_name h = h).
Proof.
  intros Hs Hp. unfold Endpoint.cloudron_name. repeat split.
  - change ("https://my-" +:+ h +:+ "/" +:+ path)
      with ("https://" +:+ ("my-" +:+ (h +:+ String "/" path))).
    rewrite !strip_prefixed. apply name_after_strips; assumption.
  - change ("https://my." +:+ h +:+ "/" +:+ path)
      with ("https://" +:+ ("my." +:+ (h +:+ String "/" path))).
    rewrite strip_prefixed.
    rewrite (strip_other "my-") by reflexivity.
    rewrite strip_prefixed. apply before_at, Hs.
  - rewrite (strip_other "https://") by reflexivity.
    rewrite strip_prefixed, (strip_other "my.") by assumption.
    apply before_without, Hs.
  - rewrite (strip_other "https://") by reflexivity.
    rewrite (strip_other "my-") by reflexivity.
    rewrite strip_prefixed. apply before_without, Hs.
  - intros Hd Hh. rewrite (strip_other "https://") by assumption.
    rewrite (strip_other "my-") by assumption.
    rewrite (strip_other "my.") by assumption.
    apply before_without, Hs.
Qed.

Lemma cloudron_name_of_every_form_witness :
  Endpoint.cloudron_name "https://my-example.com/#/apps" = "example.com".
Proof.
  refine (proj1 (cloudron_name_of_every_form "example.com" "#/apps" _ _));
    reflexivity.
Defined.

(** X14: whatever the user typed, the name [detectCloudronApiEndpoint] works
    with contains no slash. *)
Theorem cloudron_name_has_no_slash (cloudron : string) :
  JS.has_char "/" (Endpoint.cloudron_name cloudron) = false.
Proof. apply before_has_none. Qed.

(** X15: when [detectCloudronApiEndpoint] reports an endpoint, that endpoint
    is 'my-' or 'my.' followed by the name, its status request was answered
    with status 200 and a version, and the 'my.' host is asked and chosen
    only when the 'my-' host did not answer so; and the domain [open] then
    builds for an app at a location is the endpoint with 'my' replaced by
    the location. *)
Theorem detected_endpoint_and_domain
    (typed location : string) (dash dot : Endpoint.probe)
    (requests : list IO.effect) (d : Endpoint.detected) :
  Endpoint.detectCloudronApiEndpoint typed dash dot = (requests, inr d) ->
  location <> "" ->
  let name := Endpoint.cloudron_name typed in
  Endpoint.cloudron d = name
  /\ ((Endpoint.apiEndpoint d = "my-" +:+ name
       /\ Endpoint.found dash = true
       /\ requests = [IO.HttpGet (Endpoint.status_url ("my-" +:+ name))])
      \/ (Endpoint.apiEndpoint d = "my." +:+ name
          /\ Endpoint.found dash = false /\ Endpoint.found dot = true
          /\ requests = [IO.HttpGet (Endpoint.status_url ("my-" +:+ name));
                         IO.HttpGet (Endpoint.status_url ("my." +:+ name))]))
  /\ Endpoint.domain location (Endpoint.cloudron d) (Endpoint.apiEndpoint d)
     = location +:+ Endpoint.slice_from 2 (Endpoint.apiEndpoint d)
  /\ Endpoint.domain "" (Endpoint.cloudron d) (Endpoint.apiEndpoint d) = name.
Proof.
  intros H Hloc name. unfold Endpoint.detectCloudronApiEndpoint in H.
  fold name in H.
  assert (Hne : String.eqb location "" = false)
    by (apply String.eqb_neq, Hloc).
  unfold Endpoint.domain. rewrite Hne.
  destruct (Endpoint.found dash) eqn:Hdash.
  - injection H as <- <-. cbn [Endpoint.cloudron Endpoint.apiEndpoint].
    rewrite (prefix_append "my-" name).
    split; [reflexivity|]. split; [left; repeat split|].
    split; reflexivity.
  - destruct (Endpoint.found dot) eqn:Hdot; [|discriminate H].
    injection H as <- <-. cbn [Endpoint.cloudron Endpoint.apiEndpoint].
    split; [reflexivity|]. split; [right; repeat split|].
    split; reflexivity.
Qed.

Lemma detected_endpoint_and_domain_witness :
  Endpoint.domain "blog" "example.com" "my.example.com" = "blog.example.com".
Proof.
  refine (proj1 (proj2 (proj2 (detected_endpoint_and_domain
            "https://my.example.com/" "blog"
            (Endpoint.Status 404 None) (Endpoint.Status 200 (Some "0.9.0"))
            _ (Endpoint.mkDetected "example.com" "my.example.com") _ _))));
    [reflexivity|discriminate].
Defined.

(** X16: the url [installFromStore] asks the store for: for an id and a
    version without '@', 'id@version' asks for that version of the app,
    unless the version is empty; the id alone asks for the app; and what
    follows a second '@' is ignored. *)
Theorem store_url_of_id_and_version (origin id version rest : string) :
  JS.has_char "@" id = false ->
  JS.has_char "@" version = false ->
  Endpoint.store_url origin id = origin +:+ "/api/v1/apps/" +:+ id
  /\ Endpoint.store_url origin (id +:+ "@" +:+ version)
     = origin +:+ "/api/v1/apps/" +:+ id
       +:+ (if String.eqb version "" then "" else "/versions/" +:+ version)
  /\ Endpoint.store_url origin (id +:+ "@" +:+ version +:+ "@" +:+ rest)
     = Endpoint.store_url origin (id +:+ "@" +:+ version).
Proof.
  intros Hid Hv. unfold Endpoint.store_url. repeat split.
  - rewrite (split_without_separator _ _ Hid). cbn.
    rewrite append_nil_r. reflexivity.
  - change ("@" +:+ version) with (String "@" version).
    rewrite (split_at_separator _ _ _ Hid), (split_without_separator _ _ Hv).
    cbn [nth nth_error JS.truthy].
    destruct version; cbn; reflexivity.
  - change ("@" +:+ version +:+ "@" +:+ rest)
      with (String "@" (version +:+ String "@" rest)).
    change ("@" +:+ version) with (String "@" version).
    rewrite !(split_at_separator _ _ _ Hid), (split_at_separator _ _ _ Hv),
      (split_without_separator _ _ Hv).
    reflexivity.
Qed.

Lemma store_url_of_id_and_version_witness :
  Endpoint.store_url "https://api.cloudron.io" "org.wordpress@1.2.0"
  = "https://api.cloudron.io/api/v1/apps/org.wordpress/versions/1.2.0".
Proof.
  refine (proj1 (proj2 (store_url_of_id_and_version
            "https://api.cloudron.io" "org.wordpress" "1.2.0" "" _ _)));
    reflexivity.
Defined.

(** ** The configuration store: more than one key at a time *)

(** X17: when the program starts, the store always has an app store origin
    that counts as true: the environment variable when it is set and not
    empty, else the one of the configuration file when that counts as true,
    else 'https://api.cloudron.io'; every other key is as in the file. *)
Theorem appStoreOrigin_always_set
    (parsed : option (gmap string Config.value))
    (APPSTORE_ORIGIN : option string) (k : string) :
  k <> "appStoreOrigin" ->
  let st := Settings.start parsed APPSTORE_ORIGIN in
  let c := match parsed with Some c => c | None => ∅ end in
  Settings.truthy (Settings.appStoreOrigin st) = true
  /\ Config.has ["appStoreOrigin"] st = true
  /\ Settings.appStoreOrigin st
     = (if JS.truthy APPSTORE_ORIGIN
        then Config.Text (JS.of_nullable APPSTORE_ORIGIN)
        else if Settings.truthy (Settings.appStoreOrigin_of c)
             then Settings.appStoreOrigin_of c
             else Config.Text "https://api.cloudron.io")
  /\ Config.gConfig st !! k = c !! k.
Proof.
  intros Hk st c.
  unfold st, Settings.start, Settings.appStoreOrigin, Config.get, Config.has,
    Config.safe_query, Settings.load. cbn [Config.gConfig forallb].
  fold c.
  destruct (JS.truthy APPSTORE_ORIGIN) eqn:Henv.
  - rewrite lookup_insert_eq, lookup_insert_ne by congruence.
    destruct APPSTORE_ORIGIN as [[|ch s]|]; try discriminate Henv.
    repeat split.
  - unfold Settings.appStoreOrigin_of.
    destruct (c !! "appStoreOrigin") as [v|] eqn:Hv.
    + destruct (Settings.truthy v) eqn:Ht; cbn [negb].
      * rewrite Hv. repeat split. exact Ht.
      * rewrite lookup_insert_eq, lookup_insert_ne by congruence.
        repeat split.
    + cbn [Settings.truthy negb].
      rewrite lookup_insert_eq, lookup_insert_ne by congruence.
      repeat split.
Qed.

Lemma appStoreOrigin_always_set_witness :
  Settings.appStoreOrigin
    (Settings.start (Some {[ "appStoreOrigin" := Config.Text "";
                             "token" := Config.Text "abc" ]}) None)
  = Config.Text "https://api.cloudron.io".
Proof.
  refine (proj1 (proj2 (proj2 (appStoreOrigin_always_set
            (Some {[ "appStoreOrigin" := Config.Text "";
                     "token" := Config.Text "abc" ]}) None "token" _)))).
  discriminate.
Defined.

(** X19: [unset] with several keys removes each of them and nothing else:
    for flat keys, every listed key that names nothing inherited is then
    neither in the store nor readable, so [has] of the whole list is false,
    and a key that is not listed is read and found as before. *)
Theorem config_several_keys
    (keys : list string) (st : Config.store) (k k' : string) :
  Forall (fun key => Config.flat key = true) keys ->
  In k keys ->
  Config.ordinary k = true ->
  ~ In k' keys ->
  Config.flat k' = true ->
  Config.has [k] (Config.unset keys st) = false
  /\ Config.get k (Config.unset keys st) = Config.Undefined
  /\ Config.has keys (Config.unset keys st) = false
  /\ Config.get k' (Config.unset keys st) = Config.get k' st
  /\ Config.has [k'] (Config.unset keys st) = Config.has [k'] st.
Proof.
  intros _ Hk Hord Hk' _. apply ordinary_not_inherited in Hord.
  assert (Hkept : forall ks g key,
    ~ In key ks -> fold_left Config.safe_unset ks g !! key = g !! key).
  { induction ks as [|x ks IH]; intros g key Hin; cbn [fold_left];
      [reflexivity|].
    rewrite IH by (intros H; apply Hin; right; exact H).
    unfold Config.safe_unset. apply lookup_delete_ne.
    intros ->. apply Hin. left. reflexivity. }
  assert (Hremoved : forall ks g key,
    In key ks -> fold_left Config.safe_unset ks g !! key = None).
  { induction ks as [|x ks IH]; intros g key Hin; cbn [fold_left];
      [destruct Hin|].
    destruct (in_dec string_dec key ks) as [Hks|Hks]; [apply IH, Hks|].
    rewrite Hkept by exact Hks. destruct Hin as [->|Hin]; [|contradiction].
    unfold Config.safe_unset. apply lookup_delete_eq. }
  assert (Hgone : Config.gConfig (Config.unset keys st) !! k = None).
  { unfold Config.unset, Config.save. cbn [Config.gConfig].
    apply Hremoved, Hk. }
  assert (Hsame : Config.gConfig (Config.unset keys st) !! k'
                  = Config.gConfig st !! k').
  { unfold Config.unset, Config.save. cbn [Config.gConfig].
    apply Hkept, Hk'. }
  assert (Hhas : Config.has [k] (Config.unset keys st) = false).
  { rewrite (has_own k) by exact Hord. rewrite Hgone. reflexivity. }
  split; [exact Hhas|]. split; [|split; [|split]].
  - unfold Config.get, Config.safe_query. rewrite Hgone. reflexivity.
  - apply not_true_is_false. unfold Config.has at 1.
    rewrite forallb_forall. intros H. specialize (H k Hk).
    unfold Config.has in Hhas. cbn [forallb] in Hhas.
    rewrite H in Hhas. discriminate Hhas.
  - unfold Config.get, Config.safe_query. rewrite Hsame. reflexivity.
  - unfold Config.has. cbn [forallb]. rewrite Hsame. reflexivity.
Qed.

Lemma config_several_keys_witness :
  let st := {| Config.gConfig := {[ "token" := Config.Text "abc";
                                    "provider" := Config.Text "caas" ]};
               Config.file := ∅ |} in
  Config.has ["token"; "cloudron"] (Config.unset ["token"; "cloudron"] st)
  = false
  /\ Config.get "provider" (Config.unset ["token"; "cloudron"] st)
     = Config.Text "caas".
Proof.
  intros st.
  destruct (config_several_keys ["token"; "cloudron"] st "token" "provider")
    as (_ & _ & H3 & H4 & _).
  - repeat constructor.
  - left. reflexivity.
  - reflexivity.
  - intros [H|[H|[]]]; discriminate H.
  - reflexivity.
  - split; [exact H3|]. rewrite H4. reflexivity.
Defined.

(** ** Logging in *)

Section LoginFacts.
Import IO Terminal Login.

Lemma unset_token_other st k :
  k <> "token" ->
  Config.gConfig (Config.unset ["token"] st) !! k = Config.gConfig st !! k.
Proof.
  intros Hk. unfold Config.unset, Config.save, Config.safe_unset.
  cbn [Config.gConfig fold_left]. apply lookup_delete_ne. congruence.
Qed.

Lemma unset_token_gone st :
  Config.has ["token"] (Config.unset ["token"] st) = false.
Proof.
  unfold Config.has, Config.unset, Config.save, Config.safe_unset.
  cbn [Config.gConfig fold_left forallb]. rewrite lookup_delete_eq.
  reflexivity.
Qed.

Lemma set_key_other key v st k :
  k <> key ->
  Config.gConfig (Config.set (Config.Key key) v st) !! k
  = Config.gConfig st !! k.
Proof.
  intros Hk. unfold Config.set, Config.save, Config.safe_set.
  cbn [Config.gConfig]. apply lookup_insert_ne. congruence.
Qed.

Lemma set_key_get key v st :
  Config.get key (Config.set (Config.Key key) v st) = v.
Proof.
  unfold Config.get, Config.set, Config.save, Config.safe_set, Config.safe_query.
  cbn [Config.gConfig]. rewrite lookup_insert_eq. reflexivity.
Qed.

Lemma get_same st st' k :
  Config.gConfig st' !! k = Config.gConfig st !! k ->
  Config.get k st' = Config.get k st.
Proof. unfold Config.get, Config.safe_query. intros ->. reflexivity. Qed.

Lemma posts_app a b : posts (a ++ b) = posts a + posts b.
Proof. unfold posts. rewrite List.filter_app, length_app. reflexivity. Qed.

Lemma posts_cons e l :
  posts (e :: l) = (if is_post e then 1 else 0) + posts l.
Proof. unfold posts. cbn [List.filter]. destruct (is_post e); reflexivity. Qed.

Lemma posts_nil : posts [] = 0.
Proof. reflexivity. Qed.

Ltac count_posts :=
  repeat (rewrite posts_app || rewrite posts_cons || rewrite posts_nil);
  cbn [is_post].

Lemma posts_did l : posts (map Did l) = 0.
Proof. induction l; [reflexivity|exact IHl]. Qed.

Lemma ask_posts given q answers v qs rest :
  is_post q = false ->
  ask given q answers = Some (v, qs, rest) -> posts qs = 0.
Proof.
  unfold ask. intros Hq. destruct (JS.truthy given).
  - intros [= _ <- _]. reflexivity.
  - destruct answers; [discriminate|]. intros [= _ <- _].
    unfold posts. cbn. rewrite Hq. reflexivity.
Qed.

(** A run that made no login request leaves the store as it was. *)
Lemma nothing_posted (replies : list (reply Config.value)) evs st o :
  posts evs = 0 -> o <> Done ->
  (forall k, k <> "token" ->
     Config.gConfig st !! k = Config.gConfig st !! k)
  /\ (posts evs = 0 -> st = st /\ o <> Done)
  /\ (0 < posts evs -> o <> Done -> Config.has ["token"] st = false)
  /\ (o = Done ->
      exists pre res post,
        replies = pre ++ Responded res :: post
        /\ Forall (fun r => refused r = true) pre
        /\ statusCode res = 200%N
        /\ Config.get "token" st = body res
        /\ posts evs = S (length pre)).
Proof.
  intros H0 Ho. split; [reflexivity|]. split; [auto|].
  split; [lia|contradiction].
Qed.

(** What [authenticate] keeps, whatever the answers. *)
Lemma authenticate_keeps replies : forall opts answers st evs st' o,
  authenticate opts replies answers st = (evs, st', o) ->
  (forall k, k <> "token" ->
     Config.gConfig st' !! k = Config.gConfig st !! k)
  /\ (posts evs = 0 -> st' = st /\ o <> Done)
  /\ (0 < posts evs -> o <> Done -> Config.has ["token"] st' = false)
  /\ (o = Done ->
      exists pre res post,
        replies = pre ++ Responded res :: post
        /\ Forall (fun r => refused r = true) pre
        /\ statusCode res = 200%N
        /\ Config.get "token" st' = body res
        /\ posts evs = S (length pre)).
Proof.
  induction replies as [|r rest IH]; intros opts answers st evs st' o;
    cbn [authenticate];
    (destruct (greeting (Config.get "cloudron" st)) as [line|];
     [|intros [= <- <- <-]; apply nothing_posted; [reflexivity|discriminate]]);
    (destruct (ask (username opts) (Question "Username: ") answers)
       as [[[user q1] answers1]|] eqn:E1;
     [|intros [= <- <- <-]; apply nothing_posted; [reflexivity|discriminate]]);
    pose proof (ask_posts _ (Question "Username: ") _ _ _ _ eq_refl E1) as Hq1;
    (destruct (ask (password opts) (Secret "Password: ") answers1)
       as [[[pass q2] answers2]|] eqn:E2;
     [|intros [= <- <- <-]; apply nothing_posted;
       [count_posts; rewrite Hq1; reflexivity|discriminate]]);
    pose proof (ask_posts _ (Secret "Password: ") _ _ _ _ eq_refl E2) as Hq2.
  - intros [= <- <- <-]. split; [intros k Hk; apply unset_token_other, Hk|].
    count_posts; rewrite Hq1, Hq2; cbn [Nat.add].
    split; [lia|]. split; [intros _ _; apply unset_token_gone|discriminate].
  - destruct r as [e|res].
    + intros [= <- <- <-]. split; [intros k Hk; apply unset_token_other, Hk|].
      count_posts; rewrite Hq1, Hq2; cbn [Nat.add].
      split; [lia|]. split; [intros _ _; apply unset_token_gone|discriminate].
    + destruct (N.eqb_spec (statusCode res) 412) as [H412|H412].
      * destruct (authenticate (mkOptions None None) rest answers2
                    (Config.unset ["token"] st)) as [[more st2] o2] eqn:E.
        intros [= <- <- <-].
        destruct (IH _ _ _ _ _ _ E) as (Hk & H0 & Hfail & Hdone).
        count_posts; rewrite Hq1, Hq2, ?posts_did; cbn [Nat.add].
        split; [intros k Hne; rewrite (Hk k Hne); apply unset_token_other, Hne|].
        split; [lia|]. split.
        -- intros _ Ho. destruct (posts more) eqn:Hm.
           ++ destruct (H0 eq_refl) as [-> _]. apply unset_token_gone.
           ++ apply Hfail; [lia|exact Ho].
        -- intros Ho. destruct (Hdone Ho) as (pre & res' & post & -> & Hpre & H200 & Htok & Hposts).
           exists (Responded res :: pre), res', post.
           split; [reflexivity|]. split.
           { constructor; [|exact Hpre]. cbn. rewrite H412. reflexivity. }
           split; [exact H200|]. split; [exact Htok|]. cbn [length]. lia.
      * destruct (N.eqb_spec (statusCode res) 200) as [H200|H200]; cbn [negb].
        -- remember (Config.set (Config.Key "token") (body res)
                                (Config.unset ["token"] st)) as stF eqn:HF.
           intros [= <- <- <-]. subst stF.
           split; [intros k Hk; rewrite set_key_other by exact Hk;
                   apply unset_token_other, Hk|].
           count_posts; rewrite Hq1, Hq2; cbn [Nat.add].
           split; [lia|]. split; [congruence|]. intros _.
           exists [], res, rest. split; [reflexivity|].
           split; [constructor|]. split; [exact H200|].
           split; [apply set_key_get|reflexivity].
        -- destruct (authenticate (mkOptions None None) rest answers2
                       (Config.unset ["token"] st)) as [[more st2] o2] eqn:E.
           intros [= <- <- <-].
           destruct (IH _ _ _ _ _ _ E) as (Hk & H0 & Hfail & Hdone).
           count_posts; rewrite Hq1, Hq2; cbn [Nat.add].
           split; [intros k Hne; rewrite (Hk k Hne);
                   apply unset_token_other, Hne|].
           split; [lia|]. split.
           ++ intros _ Ho. destruct (posts more) eqn:Hm.
              ** destruct (H0 eq_refl) as [-> _]. apply unset_token_gone.
              ** apply Hfail; [lia|exact Ho].
           ++ intros Ho. destruct (Hdone Ho) as (pre & res' & post & -> & Hpre & H200' & Htok & Hposts).
              exists (Responded res :: pre), res', post.
              split; [reflexivity|]. split.
              { constructor; [|exact Hpre]. cbn.
                apply negb_true_iff, N.eqb_neq, H200. }
              split; [exact H200'|]. split; [exact Htok|]. cbn [length]. lia.
Qed.

End LoginFacts.

Section LoginNoThrow.
Import IO Terminal Login.

Lemma authenticate_greets replies : forall opts answers st c evs st' o,
  Config.get "cloudron" st = Config.Text c ->
  authenticate opts replies answers st = (evs, st', o) -> o <> Threw.
Proof.
  induction replies as [|r rest IH]; intros opts answers st c evs st' o Hc;
    cbn [authenticate]; rewrite Hc; cbn [greeting];
    (destruct (ask (username opts) (Question "Username: ") answers)
       as [[[user q1] answers1]|]; [|intros [= _ _ <-]; discriminate]);
    (destruct (ask (password opts) (Secret "Password: ") answers1)
       as [[[pass q2] answers2]|]; [|intros [= _ _ <-]; discriminate]).
  - intros [= _ _ <-]. discriminate.
  - assert (Hc' : Config.get "cloudron" (Config.unset ["token"] st)
                  = Config.Text c).
    { rewrite <- Hc. apply get_same, unset_token_other. discriminate. }
    destruct r as [e|res]; [intros [= _ _ <-]; discriminate|].
    destruct (statusCode res =? 412)%N.
    + destruct (authenticate (mkOptions None None) rest answers2
                  (Config.unset ["token"] st)) as [[more st2] o2] eqn:E.
      intros [= _ _ <-]. eapply IH; eassumption.
    + destruct (negb (statusCode res =? 200)%N).
      * destruct (authenticate (mkOptions None None) rest answers2
                    (Config.unset ["token"] st)) as [[more st2] o2] eqn:E.
        intros [= _ _ <-]. eapply IH; eassumption.
      * intros [= _ _ <-]. discriminate.
Qed.

End LoginNoThrow.

(** X20: [authenticate] touches no key of the store but the token. It
    removes the stored token before each login request, so after a run that
    made a request and did not succeed the store has no token; it succeeds
    on the first answer with status 200, after one request for each answer
    that turned the login down, and then the stored token is the one of
    that answer. A run that made no request leaves the store as it was. *)
Theorem authenticate_token
    (opts : Login.options) (replies : list (IO.reply Config.value))
    (answers : list string) (st st' : Config.store)
    (evs : list Terminal.event) (o : Login.outcome) :
  Login.authenticate opts replies answers st = (evs, st', o) ->
  (forall k, k <> "token" ->
     Config.gConfig st' !! k = Config.gConfig st !! k)
  /\ (Terminal.posts evs = 0 -> st' = st /\ o <> Login.Done)
  /\ (0 < Terminal.posts evs -> o <> Login.Done ->
      Config.has ["token"] st' = false)
  /\ (o = Login.Done ->
      exists pre res post,
        replies = pre ++ IO.Responded res :: post
        /\ Forall (fun r => Login.refused r = true) pre
        /\ IO.statusCode res = 200%N
        /\ Config.get "token" st' = IO.body res
        /\ Terminal.posts evs = S (length pre)).
Proof. apply authenticate_keeps. Qed.

Lemma authenticate_token_witness :
  let st := {| Config.gConfig := {[ "cloudron" := Config.Text "example.com";
                                    "token" := Config.Text "old" ]};
               Config.file := ∅ |} in
  let run := Login.authenticate (Login.mkOptions (Some "admin") None)
               [ IO.Responded (IO.mkResponse 401 "" Config.Null);
                 IO.Responded (IO.mkResponse 200 "" (Config.Text "fresh")) ]
               ["wrong"; "admin"; "right"] st in
  snd run = Login.Done
  /\ Config.get "token" (snd (fst run)) = Config.Text "fresh"
  /\ Terminal.posts (fst (fst run)) = 2.
Proof.
  intros st run.
  assert (Hrun : Login.authenticate (Login.mkOptions (Some "admin") None)
                   [ IO.Responded (IO.mkResponse 401 "" Config.Null);
                     IO.Responded (IO.mkResponse 200 "" (Config.Text "fresh")) ]
                   ["wrong"; "admin"; "right"] st
                 = (fst (fst run), snd (fst run), snd run))
    by (vm_compute; reflexivity).
  assert (Hdone : snd run = Login.Done) by (vm_compute; reflexivity).
  destruct (proj2 (proj2 (proj2 (authenticate_token _ _ _ _ _ _ _ Hrun))) Hdone)
    as (pre & res & post & Hsplit & Hpre & H200 & Htok & Hposts).
  split; [exact Hdone|]. split; vm_compute; reflexivity.
Defined.

(** X21: [login] never stops on the greeting, because it stores the name of
    the Cloudron before it greets. When neither host answers it ends the
    process and leaves the store as it was. When it succeeds the store holds
    the name found in what the user typed, the endpoint that answered, and
    the token of an answer with status 200. *)
Theorem login_stores_what_it_found
    (typed : string) (dash dot : Endpoint.probe) (opts : Login.options)
    (replies : list (IO.reply Config.value)) (answers : list string)
    (st st' : Config.store) (evs : list Terminal.event) (o : Login.outcome) :
  Login.login typed dash dot opts replies answers st = (evs, st', o) ->
  o <> Login.Threw
  /\ (Endpoint.found dash = false -> Endpoint.found dot = false ->
      st' = st /\ o = Login.Exited /\ Terminal.posts evs = 0)
  /\ (o = Login.Done ->
      Config.get "cloudron" st'
      = Config.Text (Endpoint.cloudron_name typed)
      /\ Config.get "apiEndpoint" st'
         = Config.Text ((if Endpoint.found dash then "my-" else "my.")
                        +:+ Endpoint.cloudron_name typed)
      /\ exists res,
           In (IO.Responded res) replies /\ IO.statusCode res = 200%N
           /\ Config.get "token" st' = IO.body res).
Proof.
  unfold Login.login, Endpoint.detectCloudronApiEndpoint.
  set (name := Endpoint.cloudron_name typed).
  assert (Hrun : forall e requests,
    (let '(more, st3, o0) :=
       Login.authenticate opts replies answers
         (Config.set (Config.Key "apiEndpoint") (Config.Text e)
            (Config.set (Config.Key "cloudron") (Config.Text name) st)) in
     (map Terminal.Did requests ++ more, st3, o0)) = (evs, st', o) ->
    o <> Login.Threw
    /\ (o = Login.Done ->
        Config.get "cloudron" st' = Config.Text name
        /\ Config.get "apiEndpoint" st' = Config.Text e
        /\ exists res,
             In (IO.Responded res) replies /\ IO.statusCode res = 200%N
             /\ Config.get "token" st' = IO.body res)).
  { intros e requests.
    destruct (Login.authenticate opts replies answers _)
      as [[more st3] o0] eqn:E.
    intros [= _ <- <-].
    destruct (authenticate_keeps _ _ _ _ _ _ _ E) as (Hk & _ & _ & Hdone).
    split.
    - eapply authenticate_greets; [|exact E].
      rewrite (get_same (Config.set (Config.Key "cloudron")
                           (Config.Text name) st) _)
        by (apply set_key_other; discriminate).
      apply set_key_get.
    - intros Ho. split; [|split].
      + rewrite (get_same _ _ _ (Hk "cloudron" ltac:(discriminate))).
        rewrite (get_same (Config.set (Config.Key "cloudron")
                             (Config.Text name) st) _)
          by (apply set_key_other; discriminate).
        apply set_key_get.
      + rewrite (get_same _ _ _ (Hk "apiEndpoint" ltac:(discriminate))).
        apply set_key_get.
      + destruct (Hdone Ho) as (pre & res & post & -> & _ & H200 & Htok & _).
        exists res. split; [apply in_elt|]. split; assumption. }
  destruct (Endpoint.found dash) eqn:Hdash.
  - intros H. destruct (Hrun _ _ H) as [Hthrow Hdone].
    split; [exact Hthrow|]. split; [discriminate|exact Hdone].
  - destruct (Endpoint.found dot) eqn:Hdot.
    + intros H. destruct (Hrun _ _ H) as [Hthrow Hdone].
      split; [exact Hthrow|]. split; [discriminate|exact Hdone].
    + intros [= <- <- <-]. split; [discriminate|].
      split; [|discriminate]. intros _ _.
      split; [reflexivity|]. split; [reflexivity|]. reflexivity.
Qed.

Lemma login_stores_what_it_found_witness :
  let run := Login.login "https://my.example.com/"
               (Endpoint.Status 404 None) (Endpoint.Status 200 (Some "0.9.0"))
               (Login.mkOptions (Some "admin") (Some "secret"))
               [IO.Responded (IO.mkResponse 200 "" (Config.Text "fresh"))] []
               {| Config.gConfig := ∅; Config.file := ∅ |} in
  Config.get "apiEndpoint" (snd (fst run)) = Config.Text "my.example.com".
Proof.
  intros run.
  assert (Hrun : Login.login "https://my.example.com/"
                   (Endpoint.Status 404 None)
                   (Endpoint.Status 200 (Some "0.9.0"))
                   (Login.mkOptions (Some "admin") (Some "secret"))
                   [IO.Responded (IO.mkResponse 200 "" (Config.Text "fresh"))]
                   [] {| Config.gConfig := ∅; Config.file := ∅ |}
                 = (fst (fst run), snd (fst run), snd run))
    by (vm_compute; reflexivity).
  assert (Hdone : snd run = Login.Done) by (vm_compute; reflexivity).
  exact (proj1 (proj2 (proj2 (proj2
           (login_stores_what_it_found _ _ _ _ _ _ _ _ _ _ Hrun)) Hdone))).
Defined.

(** ** Restarting an app *)

Section RestartFacts.
Import IO Terminal Restart.

Lemma waitForFinish_rounds appId target p : forall r rest,
  Forall (fun r => keeps_waiting target r = true) p ->
  in_state target r = true ->
  waitForFinish appId target (p ++ r :: rest)
  = (flat_map (fun _ => round appId) p ++ [Did (HttpGet (Poller.app_path appId))],
     Reached rest).
Proof.
  induction p as [|r0 p IH]; intros r rest Hp Hr.
  - destruct r as [e|res]; [discriminate|].
    cbn [Datatypes.app waitForFinish flat_map]. cbn [in_state] in Hr.
    rewrite Hr. reflexivity.
  - inversion Hp as [|? ? Hr0 Hp']; subst.
    destruct r0 as [e|res]; [discriminate|].
    cbn [keeps_waiting] in Hr0. apply negb_true_iff in Hr0.
    cbn [Datatypes.app waitForFinish flat_map]. rewrite Hr0.
    rewrite (IH r rest Hp' Hr). reflexivity.
Qed.

Lemma waitForFinish_reached appId target polls : forall evs rest,
  waitForFinish appId target polls = (evs, Reached rest) ->
  exists p r,
    polls = p ++ r :: rest
    /\ Forall (fun r => keeps_waiting target r = true) p
    /\ in_state target r = true.
Proof.
  induction polls as [|r0 polls IH]; intros evs rest; cbn [waitForFinish].
  - discriminate.
  - destruct r0 as [e|res]; [discriminate|].
    destruct (JS.strict_eq (runState (body res)) (Some target)) eqn:E.
    + intros [= _ <-]. exists [], (Responded res).
      split; [reflexivity|]. split; [constructor|exact E].
    + destruct (waitForFinish appId target polls) as [more s] eqn:Ew.
      intros [= _ ->].
      destruct (IH more rest eq_refl) as (p & r & -> & Hp & Hr).
      exists (Responded res :: p), r. split; [reflexivity|].
      split; [|exact Hr]. constructor; [|exact Hp].
      cbn [keeps_waiting]. rewrite E. reflexivity.
Qed.

Lemma waitForFinish_polls appId target polls :
  Forall (fun e => exists x, e = Did x /\ forall s, x <> ConsoleLog s)
         (fst (waitForFinish appId target polls)).
Proof.
  induction polls as [|r0 polls IH]; cbn [waitForFinish].
  - repeat constructor. eexists; split; [reflexivity|discriminate].
  - destruct r0 as [e|res].
    + repeat constructor; eexists; (split; [reflexivity|discriminate]).
    + destruct (JS.strict_eq (runState (body res)) (Some target)).
      * repeat constructor; eexists; (split; [reflexivity|discriminate]).
      * destruct (waitForFinish appId target polls) as [more s].
        cbn [fst] in *.
        repeat (constructor;
                [eexists; (split; [reflexivity|discriminate])|]).
        exact IH.
Qed.

Lemma change_runState_reached verb failure banner target a answer polls evs rest :
  change_runState verb failure banner target a answer polls
  = (evs, Reached rest) ->
  accepted answer = true
  /\ exists more, waitForFinish (id a) target polls = (more, Reached rest)
      /\ evs = HttpPost (post_path (id a) verb) []
                 :: Did (StdoutWrite (JS.LF +:+ " => " +:+ JS.cyan banner))
                 :: more.
Proof.
  unfold change_runState. destruct answer as [e|res]; [discriminate|].
  cbn [accepted]. destruct (statusCode res =? 202)%N; [|discriminate].
  cbn [negb]. destruct (waitForFinish (id a) target polls) as [more s].
  intros [= <- ->]. split; [reflexivity|]. exists more. split; reflexivity.
Qed.

Lemma change_runState_accepted verb failure banner target a answer polls :
  accepted answer = true ->
  change_runState verb failure banner target a answer polls
  = (HttpPost (post_path (id a) verb) []
       :: Did (StdoutWrite (JS.LF +:+ " => " +:+ JS.cyan banner))
       :: fst (waitForFinish (id a) target polls),
     snd (waitForFinish (id a) target polls)).
Proof.
  unfold change_runState. destruct answer as [e|res]; [discriminate|].
  cbn [accepted]. intros ->. cbn [negb].
  destruct (waitForFinish (id a) target polls) as [more s]. reflexivity.
Qed.

Lemma health_finished appId replies : forall evs,
  Poller.healthy_checkStatus appId replies = (evs, Poller.Finished None) ->
  exists p r rest,
    replies = p ++ r :: rest
    /\ Forall (fun r => Poller.unhealthy r = true) p
    /\ Poller.healthy r = true.
Proof.
  induction replies as [|r0 replies IH]; intros evs;
    cbn [Poller.healthy_checkStatus]; [discriminate|].
  destruct r0 as [e|res]; cbn [Poller.healthy_check]; [discriminate|].
  destruct (statusCode res =? 200)%N eqn:Es; cbn [negb]; [|discriminate].
  destruct (JS.strict_eq (health (body res)) (Some "healthy")) eqn:Eh.
  - intros _. exists [], (Responded res), replies.
    split; [reflexivity|]. split; [constructor|].
    unfold Poller.healthy, Poller.ok, Poller.reports_healthy.
    rewrite Es, Eh. reflexivity.
  - destruct (Poller.healthy_checkStatus appId replies) as [more o] eqn:Ew.
    intros [= _ ->].
    destruct (IH more eq_refl) as (p & r & rest & -> & Hp & Hr).
    exists (Responded res :: p), r, rest. split; [reflexivity|].
    split; [|exact Hr]. constructor; [|exact Hp].
    unfold Poller.unhealthy, Poller.ok, Poller.reports_healthy.
    rewrite Es, Eh. reflexivity.
Qed.

End RestartFacts.

Section RestartTraces.
Import IO Terminal Restart.

Lemma health_check_no_log appId replies :
  Forall (fun x => forall s, x <> ConsoleLog s)
         (fst (Poller.healthy_checkStatus appId replies)).
Proof.
  induction replies as [|r0 replies IH]; cbn [Poller.healthy_checkStatus].
  - repeat constructor. discriminate.
  - destruct r0 as [e|res]; cbn [Poller.healthy_check].
    + repeat constructor. discriminate.
    + destruct (negb (statusCode res =? 200)%N);
        [repeat constructor; discriminate|].
      destruct (JS.strict_eq (health (body res)) (Some "healthy"));
        [repeat constructor; discriminate|].
      destruct (Poller.healthy_checkStatus appId replies) as [more o].
      cbn [fst Datatypes.app] in *.
      repeat (constructor; [discriminate|]). exact IH.
Qed.

Lemma no_log_in_change verb failure banner target a answer polls s :
  ~ In (Did (ConsoleLog s))
       (fst (change_runState verb failure banner target a answer polls)).
Proof.
  unfold change_runState. destruct answer as [e|res].
  - cbn. intros [H|[H|[]]]; discriminate H.
  - destruct (negb (statusCode res =? 202)%N).
    + cbn. intros [H|[H|[]]]; discriminate H.
    + pose proof (waitForFinish_polls (id a) target polls) as Hp.
      destruct (waitForFinish (id a) target polls) as [more st].
      cbn [fst] in *. intros [H|[H|H]]; try discriminate H.
      rewrite List.Forall_forall in Hp.
      destruct (Hp _ H) as (x & [= <-] & Hx). exact (Hx s eq_refl).
Qed.

End RestartTraces.

(** X22: when [restart] has found the app and both POST requests are
    answered with status 202, it stops the app, starts it and waits for its
    health, in this order: it polls until an answer reports the run state
    ['stopped'], then posts the start request and polls until an answer
    reports ['running'], then runs the health wait on the answers that
    follow. While it waits for a run state, an answer of any status that
    does not report that state costs one dot and one second. *)
Theorem restart_in_order
    (appId : option string) (env : Exec.environment)
    (requests : list IO.effect) (a : IO.app)
    (stop start : IO.reply unit)
    (p1 p2 rest : list (IO.reply Restart.resource))
    (r1 r2 : IO.reply Restart.resource) :
  Exec.getApp appId env = (requests, Exec.Found None (Some a)) ->
  Restart.accepted stop = true ->
  Restart.accepted start = true ->
  Forall (fun r => Restart.keeps_waiting "stopped" r = true) p1 ->
  Restart.in_state "stopped" r1 = true ->
  Forall (fun r => Restart.keeps_waiting "running" r = true) p2 ->
  Restart.in_state "running" r2 = true ->
  let health :=
    Poller.waitForHealthy (IO.id a) (map Restart.health_view rest) in
  Restart.restart appId env stop start (p1 ++ r1 :: p2 ++ r2 :: rest)
  = map Terminal.Did requests
    ++ (Terminal.HttpPost (Restart.post_path (IO.id a) "stop") []
          :: Restart.stop_banner
          :: flat_map (fun _ => Restart.round (IO.id a)) p1
          ++ [Terminal.Did (IO.HttpGet (Poller.app_path (IO.id a)))])
    ++ (Terminal.HttpPost (Restart.post_path (IO.id a) "start") []
          :: Restart.start_banner
          :: flat_map (fun _ => Restart.round (IO.id a)) p2
          ++ [Terminal.Did (IO.HttpGet (Poller.app_path (IO.id a)))])
    ++ map Terminal.Did (fst health)
    ++ Restart.restarted (snd health).
Proof.
  intros Hget Hstop Hstart Hp1 Hr1 Hp2 Hr2 health.
  unfold Restart.restart. rewrite Hget. f_equal.
  unfold Restart.restart_app, Restart.stopApp, Restart.startApp.
  rewrite (change_runState_accepted _ _ _ _ _ _ _ Hstop).
  rewrite (waitForFinish_rounds _ _ p1 r1 _ Hp1 Hr1). cbn [fst snd].
  rewrite (change_runState_accepted _ _ _ _ _ _ _ Hstart).
  rewrite (waitForFinish_rounds _ _ p2 r2 _ Hp2 Hr2). cbn [fst snd].
  subst health.
  destruct (Poller.waitForHealthy (IO.id a) (map Restart.health_view rest))
    as [checking o].
  reflexivity.
Qed.

Lemma restart_in_order_witness :
  let a := IO.mkApp "a1" "installed" None (Some "healthy") in
  let env := Exec.mkEnv "t" "my.example.com" None None ""
               (IO.Responded (IO.mkResponse 200 "" a)) None in
  let ok := IO.Responded (IO.mkResponse 202 "" tt) in
  let saying st := IO.Responded
                 (IO.mkResponse 500 "" (Restart.mkResource a (Some st))) in
  Restart.restart (Some "a1") env ok ok
    ([saying "running"] ++ saying "stopped" :: [saying "stopped"] ++ saying "running" :: [])
  = [Terminal.Did (IO.HttpGet "/api/v1/apps/a1");
     Terminal.HttpPost "/api/v1/apps/a1/stop" [];
     Restart.stop_banner;
     Terminal.Did (IO.HttpGet "/api/v1/apps/a1");
     Terminal.Did (IO.StdoutWrite ".");
     Terminal.Did (IO.SetTimeout 1000);
     Terminal.Did (IO.HttpGet "/api/v1/apps/a1");
     Terminal.HttpPost "/api/v1/apps/a1/start" [];
     Restart.start_banner;
     Terminal.Did (IO.HttpGet "/api/v1/apps/a1");
     Terminal.Did (IO.StdoutWrite ".");
     Terminal.Did (IO.SetTimeout 1000);
     Terminal.Did (IO.HttpGet "/api/v1/apps/a1");
     Terminal.Did Poller.health_banner;
     Terminal.Did (IO.SetTimeout 1000);
     Terminal.Did (IO.HttpGet "/api/v1/apps/a1")].
Proof.
  intros a env ok saying.
  rewrite (restart_in_order (Some "a1") env [IO.HttpGet "/api/v1/apps/a1"] a
             ok ok [saying "running"] [saying "stopped"] [] (saying "stopped")
             (saying "running")).
  - reflexivity.
  - reflexivity.
  - reflexivity.
  - reflexivity.
  - repeat constructor.
  - reflexivity.
  - repeat constructor.
  - reflexivity.
Defined.

(** X23: [restart] prints 'App restarted' only after all of this has
    happened: the lookup returned an app, both POST requests were answered
    with status 202, an answer reported the run state ['stopped'], a later
    one ['running'], and a still later one, with status 200, the health
    ['healthy']; and no answer in between was a transport failure, and none
    during the health wait had another status than 200. *)
Theorem restart_success_only_after
    (appId : option string) (env : Exec.environment)
    (stop start : IO.reply unit)
    (polls : list (IO.reply Restart.resource)) :
  In Restart.success (Restart.restart appId env stop start polls) ->
  (exists requests a,
     Exec.getApp appId env = (requests, Exec.Found None (Some a)))
  /\ Restart.accepted stop = true
  /\ Restart.accepted start = true
  /\ exists p1 r1 p2 r2 p3 r3 rest,
       polls = p1 ++ r1 :: p2 ++ r2 :: p3 ++ r3 :: rest
       /\ Forall (fun r => Restart.keeps_waiting "stopped" r = true) p1
       /\ Restart.in_state "stopped" r1 = true
       /\ Forall (fun r => Restart.keeps_waiting "running" r = true) p2
       /\ Restart.in_state "running" r2 = true
       /\ Forall (fun r => Poller.unhealthy (Restart.health_view r) = true) p3
       /\ Poller.healthy (Restart.health_view r3) = true.
Proof.
  unfold Restart.restart.
  destruct (getApp_shape appId env)
    as [(gets & a & e & Hget & Hgets & _ & _)|(gets & args & Hget & Hgets & _)];
    rewrite Hget; intros Hin; apply in_app_or in Hin as [Hin|Hin].
  - exfalso. apply in_map_iff in Hin as (x & [= Hx'] & Hx). subst x.
    rewrite forallb_forall in Hgets. discriminate (Hgets _ Hx).
  - destruct e as [error|]; [destruct Hin as [H|[]]; discriminate H|].
    destruct a as [a|]; [|destruct Hin as [H|[]]; discriminate H].
    split; [exists gets, a; reflexivity|].
    unfold Restart.restart_app, Restart.stopApp, Restart.startApp in Hin.
    pose proof (no_log_in_change "stop" "Failed to stop app."
                  "Waiting for app to be stopped " "stopped" a stop polls)
      as N1.
    destruct (Restart.change_runState "stop" "Failed to stop app."
                "Waiting for app to be stopped " "stopped" a stop polls)
      as [stopping s1] eqn:E1.
    cbn [fst] in N1.
    apply in_app_or in Hin as [Hin|Hin]; [destruct (N1 _ Hin)|].
    destruct s1 as [rest1| |]; try destruct Hin.
    apply change_runState_reached in E1 as (Hstop & more1 & W1 & _).
    apply waitForFinish_reached in W1 as (p1 & r1 & -> & Hp1 & Hr1).
    pose proof (no_log_in_change "start" "Failed to start app."
                  "Waiting for app to be started " "running" a start rest1)
      as N2.
    destruct (Restart.change_runState "start" "Failed to start app."
                "Waiting for app to be started " "running" a start rest1)
      as [starting s2] eqn:E2.
    cbn [fst] in N2.
    apply in_app_or in Hin as [Hin|Hin]; [destruct (N2 _ Hin)|].
    destruct s2 as [rest2| |]; try destruct Hin.
    apply change_runState_reached in E2 as (Hstart & more2 & W2 & _).
    apply waitForFinish_reached in W2 as (p2 & r2 & -> & Hp2 & Hr2).
    split; [exact Hstop|]. split; [exact Hstart|].
    unfold Poller.waitForHealthy in Hin.
    pose proof (health_check_no_log (IO.id a) (map Restart.health_view rest2))
      as N3.
    destruct (Poller.healthy_checkStatus (IO.id a)
                (map Restart.health_view rest2)) as [checking o] eqn:E3.
    cbn [fst] in N3.
    apply in_app_or in Hin as [Hin|Hin].
    + exfalso. apply in_map_iff in Hin as (x & [= Hx'] & Hx). subst x.
      destruct Hx as [Hx|[Hx|Hx]]; try discriminate Hx.
      rewrite List.Forall_forall in N3. exact (N3 _ Hx _ eq_refl).
    + destruct o as [[error|]| |];
        [destruct Hin as [H|[]]; discriminate H| |destruct Hin|destruct Hin].
      clear Hin.
      apply health_finished in E3 as (q & r & rest' & Hmap & Hq & Hr).
      apply map_eq_app in Hmap as (p3 & tl & -> & <- & Htl).
      destruct tl as [|r3 rest]; [discriminate Htl|].
      injection Htl as <- _.
      exists p1, r1, p2, r2, p3, r3, rest.
      split; [reflexivity|].
      repeat (split; [assumption|]).
      split; [|exact Hr].
      clear -Hq. induction p3 as [|x p3 IH]; [constructor|].
      inversion Hq; subst. constructor; [assumption|apply IH; assumption].
  - exfalso. apply in_map_iff in Hin as (x & [= Hx'] & Hx). subst x.
    apply in_app_or in Hx as [Hx|[Hx|[]]]; [|discriminate Hx].
    rewrite forallb_forall in Hgets. discriminate (Hgets _ Hx).
  - destruct Hin.
Qed.

Lemma restart_success_only_after_witness :
  let a := IO.mkApp "a1" "installed" None (Some "healthy") in
  let env := Exec.mkEnv "t" "my.example.com" None None ""
               (IO.Responded (IO.mkResponse 200 "" a)) None in
  let ok := IO.Responded (IO.mkResponse 202 "" tt) in
  let saying st := IO.Responded
                 (IO.mkResponse 200 "" (Restart.mkResource a (Some st))) in
  In Restart.success
     (Restart.restart (Some "a1") env ok ok
        [saying "stopped"; saying "running"; saying "running"])
  /\ Restart.accepted ok = true.
Proof.
  intros a env ok saying.
  assert (H : In Restart.success
                (Restart.restart (Some "a1") env ok ok
                   [saying "stopped"; saying "running"; saying "running"])).
  { vm_compute. do 10 right. left. reflexivity. }
  split; [exact H|].
  exact (proj1 (proj2 (restart_success_only_after _ _ _ _ _ H))).
Defined.

(** ** The port bindings *)

Section PortFacts.
Import IO Terminal Ports.

Variable bindings : option (gmap string N).

Lemma bind_ports_binds ports : forall answers acc,
  length ports <= length answers ->
  exists evs m,
    bind_ports bindings ports answers acc = (evs, Some m)
    /\ questions evs = length ports
    /\ (forall k, ~ In k (map env ports) -> m !! k = acc !! k)
    /\ (NoDup (map env ports) ->
        forall i p port,
          ports !! i = Some p -> answers !! i = Some port ->
          m !! env p
          = if String.eqb port "" then Some (bound (defaultPort bindings p))
            else match Select.parseInt port with
                 | Some n => Some (Number n)
                 | None => acc !! env p
                 end).
Proof.
  induction ports as [|p more IH]; intros answers acc Hlen.
  - exists [], acc. split; [reflexivity|]. split; [reflexivity|].
    split; [reflexivity|]. intros _ i p port H. discriminate H.
  - destruct answers as [|port rest]; [cbn in Hlen; lia|].
    cbn [length] in Hlen. assert (Hlen' : length more <= length rest) by lia.
    cbn [bind_ports].
    set (acc' := if String.eqb port "" then
                   <[env p := bound (defaultPort bindings p)]> acc
                 else match Select.parseInt port with
                      | Some n => <[env p := Number n]> acc
                      | None => acc
                      end).
    destruct (IH rest acc' Hlen') as (evs & m & Hrun & Hq & Hout & Hin).
    assert (Hhead : acc' !! env p
                    = if String.eqb port "" then
                        Some (bound (defaultPort bindings p))
                      else match Select.parseInt port with
                           | Some n => Some (Number n)
                           | None => acc !! env p
                           end).
    { subst acc'. destruct (String.eqb port "");
        [apply lookup_insert_eq|].
      destruct (Select.parseInt port); [apply lookup_insert_eq|reflexivity]. }
    assert (Hother : forall k, k <> env p -> acc' !! k = acc !! k).
    { intros k Hk. subst acc'. destruct (String.eqb port "");
        [apply lookup_insert_ne; congruence|].
      destruct (Select.parseInt port);
        [apply lookup_insert_ne; congruence|reflexivity]. }
    assert (Hshape : exists evs',
               bind_ports bindings (p :: more) (port :: rest) acc
               = (evs', Some m)
               /\ questions evs' = S (questions evs)).
    { cbn [bind_ports]. subst acc'. destruct (String.eqb port "").
      - rewrite Hrun. eexists. split; reflexivity.
      - destruct (Select.parseInt port); rewrite Hrun;
          eexists; split; reflexivity. }
    destruct Hshape as (evs' & Hrun' & Hq').
    cbn [bind_ports] in Hrun'. exists evs', m.
    split; [exact Hrun'|]. split; [rewrite Hq', Hq; reflexivity|].
    split.
    + intros k Hk. cbn [map] in Hk.
      rewrite Hout by (intros H; apply Hk; right; exact H).
      apply Hother. intros ->. apply Hk. left. reflexivity.
    + intros Hnd i q port' Hi Ha. cbn [map] in Hnd.
      apply NoDup_cons in Hnd as [Hp Hnd].
      rewrite list_elem_of_In in Hp.
      destruct i as [|i].
      * cbn in Hi, Ha. injection Hi as <-. injection Ha as <-.
        rewrite (Hout _ Hp). exact Hhead.
      * cbn in Hi, Ha. rewrite (Hin Hnd i q port' Hi Ha).
        assert (Hne : env q <> env p).
        { intros E. apply Hp. rewrite <- E. apply in_map.
          apply list_elem_of_In. eapply list_elem_of_lookup_2. exact Hi. }
        rewrite (Hother _ Hne). reflexivity.
Qed.

End PortFacts.

(** X25: [queryPortBindings] puts one question for each entry of
    [manifest.tcpPorts] and binds no other key. An entry answered with the
    empty string is bound to its default, which is the empty string when
    neither the app nor the manifest has a port for it; an entry whose
    answer begins with a number is bound to that number; and an entry
    answered with anything else is left out of the result. *)
Theorem queryPortBindings_binds
    (bindings : option (gmap string N)) (ports : list Ports.tcpPort)
    (answers : list string) :
  NoDup (map Ports.env ports) ->
  length ports <= length answers ->
  exists evs m,
    Ports.queryPortBindings bindings (Some ports) answers = (evs, Some m)
    /\ Ports.questions evs = length ports
    /\ (forall k, ~ In k (map Ports.env ports) -> m !! k = None)
    /\ forall i p port,
         ports !! i = Some p -> answers !! i = Some port ->
         (port = "" ->
          m !! Ports.env p
          = Some (Ports.bound (Ports.defaultPort bindings p)))
         /\ (port <> "" -> forall n, Select.parseInt port = Some n ->
             m !! Ports.env p = Some (Ports.Number n))
         /\ (port <> "" -> Select.parseInt port = None ->
             m !! Ports.env p = None).
Proof.
  intros Hnd Hlen. unfold Ports.queryPortBindings.
  destruct (bind_ports_binds bindings ports answers empty Hlen)
    as (evs & m & Hrun & Hq & Hout & Hin).
  exists evs, m. split; [exact Hrun|]. split; [exact Hq|].
  split; [intros k Hk; rewrite (Hout k Hk); apply lookup_empty|].
  intros i p port Hi Ha. rewrite (Hin Hnd i p port Hi Ha).
  split; [intros ->; reflexivity|].
  split.
  - intros Hne n Hn. apply String.eqb_neq in Hne. rewrite Hne, Hn. reflexivity.
  - intros Hne Hn. apply String.eqb_neq in Hne. rewrite Hne, Hn.
    apply lookup_empty.
Qed.

Lemma queryPortBindings_binds_witness :
  let ports := [Ports.mkPort "SSH_PORT" "SSH port" (Some 29418%N);
                Ports.mkPort "HTTP_PORT" "HTTP port" None;
                Ports.mkPort "ECHO_PORT" "Echo port" (Some 7%N);
                Ports.mkPort "DNS_PORT" "DNS port" None] in
  exists evs m,
    Ports.queryPortBindings (Some {[ "SSH_PORT" := 2222%N ]}) (Some ports)
                            [""; "8080 tcp"; "x"; ""]
    = (evs, Some m)
    /\ m !! "SSH_PORT" = Some (Ports.Number 2222)
    /\ m !! "HTTP_PORT" = Some (Ports.Number 8080)
    /\ m !! "ECHO_PORT" = None
    /\ m !! "DNS_PORT" = Some Ports.Empty.
Proof.
  intros ports.
  destruct (queryPortBindings_binds (Some {[ "SSH_PORT" := 2222%N ]}) ports
              [""; "8080 tcp"; "x"; ""])
    as (evs & m & Hrun & _ & _ & Hin).
  - apply (bool_decide_unpack (NoDup (map Ports.env ports))).
    vm_compute. exact I.
  - cbn. lia.
  - exists evs, m. split; [exact Hrun|].
    split; [exact (proj1 (Hin 0 _ _ eq_refl eq_refl) eq_refl)|].
    split; [apply (proj1 (proj2 (Hin 1 _ _ eq_refl eq_refl)));
            [discriminate|reflexivity]|].
    split; [apply (proj2 (proj2 (Hin 2 _ _ eq_refl eq_refl)));
            [discriminate|reflexivity]|].
    exact (proj1 (Hin 3 _ _ eq_refl eq_refl) eq_refl).
Defined.


